(** * check_braces: a delimiter balance checker

    Shallow embedding of [qvmc/check_braces.py] and the properties of its
    scan: which message is printed for an unmatched closer, a mismatched
    closer, unclosed openers and balanced input, how string literals and
    [//] comments hide delimiters, and the discipline of the stack of open
    delimiters.

    A Python [str] is a sequence of Unicode code points: it is modelled as
    a list of code points ([N]).  [print] is modelled by the list of the
    lines written to standard output.  The two nested [for] loops are two
    structural recursions; [continue], [break], [return] and an uncaught
    exception are the four ways an iteration of the inner loop can end. *)

From Stdlib Require Import Ascii String DecimalString.
From Stdlib Require Import List NArith Arith Bool Lia Sorted.
Import ListNotations.

Local Open Scope N_scope.

(** ** Python strings *)

Definition char := N.
Definition pystr := list char.

(** A one-character literal of the source. *)
Definition chr (a : ascii) : char := N_of_ascii a.

(** A string literal of the source. *)
Definition str (s : string) : pystr := map N_of_ascii (list_ascii_of_string s).

Definition pystr_eqb (a b : pystr) : bool :=
  if list_eq_dec N.eq_dec a b then true else false.

(** [x in xs] for a one-character [x]. *)
Definition char_in (c : char) (xs : pystr) : bool := existsb (N.eqb c) xs.

(** [str(n)] of a non-negative integer, as an f-string field prints it. *)
Definition str_of_int (n : nat) : pystr :=
  str (NilEmpty.string_of_uint (Nat.to_uint n)).

(** [c.isspace()]: the code points Python counts as whitespace. *)
Definition isspace (c : char) : bool :=
  ((9 <=? c) && (c <=? 13)) || ((28 <=? c) && (c <=? 32))
  || (c =? 133) || (c =? 160) || (c =? 5760)
  || ((8192 <=? c) && (c <=? 8202))
  || (c =? 8232) || (c =? 8233) || (c =? 8239) || (c =? 8287)
  || (c =? 12288).

Fixpoint lstrip (s : pystr) : pystr :=
  match s with
  | c :: s' => if isspace c then lstrip s' else s
  | [] => []
  end.

(** [s.rstrip()]: drop the trailing whitespace. *)
Definition rstrip (s : pystr) : pystr := rev (lstrip (rev s)).

(** ** The characters the scan compares with *)

Definition SLASH : char := Eval cbv in chr "/".
Definition BACKSLASH : char := Eval cbv in chr "\".
Definition DQUOTE : char := Eval cbv in chr "034".
Definition SQUOTE : char := Eval cbv in chr "'".
Definition LBRACE : char := Eval cbv in chr "{".
Definition RBRACE : char := Eval cbv in chr "}".
Definition LPAREN : char := Eval cbv in chr "(".
Definition RPAREN : char := Eval cbv in chr ")".
Definition LBRACKET : char := Eval cbv in chr "[".
Definition RBRACKET : char := Eval cbv in chr "]".
Definition NEWLINE : char := 10.

(** The two characters of the string literal of the quote test: the
    double quote and the single quote. *)
Definition quotes : pystr := [DQUOTE; SQUOTE].

(** The dict [delims], in insertion order. *)
Definition delims : list (char * char) :=
  [(LBRACE, RBRACE); (LPAREN, RPAREN); (LBRACKET, RBRACKET)].

Definition keys (d : list (char * char)) : pystr := map fst d.
Definition values (d : list (char * char)) : pystr := map snd d.

(** [d[k]]; [None] stands for [KeyError]. *)
Fixpoint getitem (d : list (char * char)) (k : char) : option char :=
  match d with
  | [] => None
  | (k', v) :: d' => if k =? k' then Some v else getitem d' k
  end.

(** ** The state of the scan *)

(** An entry of [stack]: the tuple [(char, i + 1, j + 1)]. *)
Definition entry : Type := char * nat * nat.

(** The local variables the loops update.  [stack] is a Python list: the
    top of the stack is its last element. *)
Record state := mkState {
  stack : list entry;
  in_string : bool;
  string_char : pystr;
  in_comment : bool
}.

Definition init : state :=
  {| stack := []; in_string := false; string_char := []; in_comment := false |}.

Definition set_stack (s : state) (st : list entry) : state :=
  {| stack := st; in_string := in_string s;
     string_char := string_char s; in_comment := in_comment s |}.

Definition enter_string (s : state) (c : char) : state :=
  {| stack := stack s; in_string := true;
     string_char := [c]; in_comment := in_comment s |}.

Definition leave_string (s : state) : state :=
  {| stack := stack s; in_string := false;
     string_char := string_char s; in_comment := in_comment s |}.

(** [stack.pop()]: the list without its last element, and that element;
    [None] stands for [IndexError]. *)
Definition pop (st : list entry) : option (list entry * entry) :=
  match rev st with
  | [] => None
  | e :: r => Some (rev r, e)
  end.

(** [stack[-1]]. *)
Definition top (st : list entry) : option entry :=
  match rev st with
  | [] => None
  | e :: _ => Some e
  end.

Inductive exn := FileNotFoundError | OtherOpenError | IndexError | KeyError.

(** How one iteration of the inner loop ends. *)
Inductive flow :=
| Next (s : state)                 (* falls through, or [continue] *)
| Break (s : state)                (* [break]: the line is abandoned *)
| Return (stdout : list pystr)     (* [print] and [return] *)
| Raise (e : exn).

(** ** The messages *)

Definition msg_unmatched (c : char) (line col : nat) : pystr :=
  str "Error: Unmatched '" ++ [c] ++ str "' at line " ++ str_of_int line
  ++ str ", column " ++ str_of_int col.

Definition msg_mismatched (c : char) (line col : nat) (expected_end : char)
    (start_line start_col : nat) : pystr :=
  str "Error: Mismatched delimiter '" ++ [c] ++ str "' at line "
  ++ str_of_int line ++ str ", column " ++ str_of_int col
  ++ str ". Expected '" ++ [expected_end] ++ str "' (opened at "
  ++ str_of_int start_line ++ str ":" ++ str_of_int start_col ++ str ")".

Definition msg_unclosed (start_char : char) (start_line start_col : nat) : pystr :=
  str "Error: Unclosed '" ++ [start_char] ++ str "' at line "
  ++ str_of_int start_line ++ str ", column " ++ str_of_int start_col.

Definition msg_total (n : nat) : pystr :=
  str "Total unclosed delimiters: " ++ str_of_int n.

Definition msg_balanced : pystr := str "All delimiters are balanced.".

Definition msg_not_found (filepath : pystr) : pystr :=
  str "File not found: " ++ filepath.

(** ** The loops *)

(** The body of [for j, char in enumerate(line)]. *)
Definition body (line : pystr) (i j : nat) (c : char) (s : state) : flow :=
  if in_comment s then Next s
  else if (c =? SLASH) && (j + 1 <? length line)%nat
          && (nth (j + 1) line 0 =? SLASH) then Break s
  else if char_in c quotes then
    if negb (in_string s) then Next (enter_string s c)
    else if pystr_eqb [c] (string_char s) then
      if (0 <? j)%nat && (nth (j - 1) line 0 =? BACKSLASH) then Next s
      else Next (leave_string s)
    else Next s
  else if in_string s then Next s
  else if char_in c (keys delims) then
    Next (set_stack s (stack s ++ [(c, (i + 1)%nat, (j + 1)%nat)]))
  else if char_in c (values delims) then
    match stack s with
    | [] => Return [msg_unmatched c (i + 1) (j + 1)]
    | _ :: _ =>
      match pop (stack s) with
      | None => Raise IndexError
      | Some (st', (start_char, start_line, start_col)) =>
        match getitem delims start_char with
        | None => Raise KeyError
        | Some expected_end =>
          if negb (c =? expected_end)
          then Return [msg_mismatched c (i + 1) (j + 1) expected_end
                         start_line start_col]
          else Next (set_stack s st')
        end
      end
    end
  else Next s.

(** The inner loop, from column index [j] on: [cs] are the characters of
    [line] not yet visited. *)
Fixpoint for_chars (line : pystr) (i j : nat) (cs : pystr) (s : state) : flow :=
  match cs with
  | [] => Next s
  | c :: cs' =>
    match body line i j c s with
    | Next s' => for_chars line i (S j) cs' s'
    | r => r
    end
  end.

(** One iteration of the outer loop: [line = line.rstrip()], then the
    inner loop. *)
Definition for_line (i : nat) (raw : pystr) (s : state) : flow :=
  let line := rstrip raw in
  for_chars line i 0 line s.

(** The outer loop, from line index [i] on.  A [break] of the inner loop
    only ends that line. *)
Fixpoint for_lines (i : nat) (lines : list pystr) (s : state) : flow :=
  match lines with
  | [] => Next s
  | raw :: lines' =>
    match for_line i raw s with
    | Next s' | Break s' => for_lines (S i) lines' s'
    | r => r
    end
  end.

(** The code after the loops. *)
Definition report (s : state) : flow :=
  match stack s with
  | _ :: _ =>
    match top (stack s) with
    | None => Raise IndexError
    | Some (start_char, start_line, start_col) =>
      Return [msg_unclosed start_char start_line start_col;
              msg_total (length (stack s))]
    end
  | [] => Return [msg_balanced]
  end.

(** What happens once the loops are over: an early [return] or an
    exception has already ended the call, otherwise the report is printed. *)
Definition finish (f : flow) : flow :=
  match f with
  | Next s | Break s => report s
  | r => r
  end.

(** Everything after the [try] block: the scan of the lines read. *)
Definition scan (lines : list pystr) : flow :=
  finish (for_lines 0 lines init).

(** What [open(filepath, 'r')] followed by [readlines()] gives. *)
Inductive opened :=
| Lines (lines : list pystr)
| Fails (e : exn).

(** [check_braces(filepath)], in a file system [fs]. *)
Definition check_braces (fs : pystr -> opened) (filepath : pystr) : flow :=
  match fs filepath with
  | Fails FileNotFoundError => Return [msg_not_found filepath]
  | Fails e => Raise e
  | Lines lines => scan lines
  end.

(** ** The outcomes of the specification

    The source has no result type: it prints.  The four outcomes the
    specification names are identified by the lines printed for them. *)

Inductive Result :=
| Balanced
| UnmatchedCloser (symbol : char) (line column : nat)
| MismatchedCloser (symbol : char) (line column : nat)
    (expected_symbol : char) (opened_line opened_column : nat)
| UnclosedOpeners (innermost_symbol : char)
    (innermost_line innermost_column : nat) (total_count : nat).

Definition printed (r : Result) : flow :=
  match r with
  | Balanced => Return [msg_balanced]
  | UnmatchedCloser c l k => Return [msg_unmatched c l k]
  | MismatchedCloser c l k e ol ok => Return [msg_mismatched c l k e ol ok]
  | UnclosedOpeners c l k n => Return [msg_unclosed c l k; msg_total n]
  end.

Definition is_opener (c : char) : bool := char_in c (keys delims).
Definition is_closer (c : char) : bool := char_in c (values delims).
Definition is_quote (c : char) : bool := char_in c quotes.

(** The rest of the scan from column index [j] of line index [i], whose
    characters still to visit are [cs], in state [s]; [after] are the
    lines that follow. *)
Definition resume (line : pystr) (i j : nat) (cs : pystr)
    (after : list pystr) (s : state) : flow :=
  match for_chars line i j cs s with
  | Next s' | Break s' => for_lines (S i) after s'
  | r => r
  end.

(** The scan gets to the character [c] that follows [pre] on the line
    after the lines [before], and is in state [s] there: neither the
    lines [before] nor the characters [pre] made the call return, and no
    comment started in [pre]. *)
Definition reaches (before : list pystr) (pre : pystr) (c : char)
    (s : state) : Prop :=
  exists s0,
    for_lines 0 before init = Next s0 /\
    for_chars (pre ++ [c]) (length before) 0 pre s0 = Next s.

(** The character of [line] at index [k] is [x]. *)
Definition peek (line : pystr) (k : nat) (x : char) : bool :=
  match nth_error line k with
  | Some y => y =? x
  | None => false
  end.

(** What holds of every state the scan goes through. *)
Record wf (s : state) : Prop := {
  wf_comment : in_comment s = false;
  wf_stack : Forall (fun e : entry => is_opener (fst (fst e)) = true) (stack s);
  wf_string : in_string s = true ->
              exists q, string_char s = [q] /\ is_quote q = true
}.

(** ** Which characters are outside string and comment context

    A second reading of the line, which follows the words of the
    specification (steps 2a to 2d of its algorithm) and knows nothing of
    the stack: it only tells, for each character, whether the delimiter
    logic applies to it. *)

Inductive context :=
| Normal
| InString (quote : char).

(** [None]: this character and the next one are both a slash, the rest of
    the line is a comment.  Otherwise whether the character is outside
    string context, and the context of the character that follows. *)
Definition classify (line : pystr) (j : nat) (c : char) (ctx : context)
    : option (bool * context) :=
  if (c =? SLASH) && peek line (j + 1) SLASH then None
  else if is_quote c then
    match ctx with
    | Normal => Some (false, InString c)
    | InString q =>
      if c =? q then
        if (0 <? j)%nat && peek line (j - 1) BACKSLASH
        then Some (false, InString q)
        else Some (false, Normal)
      else Some (false, InString q)
    end
  else
    match ctx with
    | Normal => Some (true, Normal)
    | InString q => Some (false, InString q)
    end.

(** The characters of [cs] outside string and comment context, and the
    context at the end of the line. *)
Fixpoint visible_chars (line : pystr) (j : nat) (cs : pystr) (ctx : context)
    : pystr * context :=
  match cs with
  | [] => ([], ctx)
  | c :: cs' =>
    match classify line j c ctx with
    | None => ([], ctx)
    | Some (v, ctx') =>
      let (vs, ctx'') := visible_chars line (S j) cs' ctx' in
      (if v then c :: vs else vs, ctx'')
    end
  end.

Fixpoint visible_lines (lines : list pystr) (ctx : context) : pystr * context :=
  match lines with
  | [] => ([], ctx)
  | raw :: lines' =>
    let line := rstrip raw in
    let (vs, ctx') := visible_chars line 0 line ctx in
    let (ws, ctx'') := visible_lines lines' ctx' in
    (vs ++ ws, ctx'')
  end.

(** The characters outside string and comment context met before the
    character that follows [pre] on the line after the lines [before]. *)
Definition seen (before : list pystr) (pre : pystr) (c : char) : pystr :=
  let (vs, ctx) := visible_lines before Normal in
  vs ++ fst (visible_chars (pre ++ [c]) 0 pre ctx).

Definition opened_count (vs : pystr) : nat := length (filter is_opener vs).
Definition closed_count (vs : pystr) : nat := length (filter is_closer vs).

(** The context a state of the scan stands for. *)
Definition context_of (s : state) : context :=
  if in_string s then
    match string_char s with
    | [q] => InString q
    | _ => Normal
    end
  else Normal.

(** The call returned early, at an unmatched or a mismatched closer. *)
Definition early (f : flow) : Prop :=
  (exists c l k, f = printed (UnmatchedCloser c l k)) \/
  (exists c l k e ol ok, f = printed (MismatchedCloser c l k e ol ok)).

(** The size of the stack against the characters outside string and
    comment context, between two states of the scan. *)
Definition balance (s s' : state) (vs : pystr) : Prop :=
  (length (stack s') + closed_count vs = length (stack s) + opened_count vs)%nat.

(** ** Positions in the file *)

(** The character at the 1-based line [l] and column [k] of the file. *)
Definition char_at (lines : list pystr) (l k : nat) : option char :=
  match l, k with
  | S l', S k' =>
    match nth_error lines l' with
    | Some raw => nth_error raw k'
    | None => None
    end
  | _, _ => None
  end.

(** Line [l], column [k] comes before line [l'], column [k']. *)
Definition pos_before (l k l' k' : nat) : Prop :=
  (l < l')%nat \/ (l = l' /\ (k < k')%nat).

Definition entry_before (a b : entry) : Prop :=
  pos_before (snd (fst a)) (snd a) (snd (fst b)) (snd b).

(** The stack of a scan that is about to visit the column index [j] of
    the line index [i]: every entry holds an opening symbol and the place
    of the file where that symbol stands, before the place the scan is
    at, and an entry is pushed above those that come before it in the
    file. *)
Definition placed (lines : list pystr) (i j : nat) (s : state) : Prop :=
  Forall (fun e : entry =>
            is_opener (fst (fst e)) = true /\
            char_at lines (snd (fst e)) (snd e) = Some (fst (fst e)) /\
            pos_before (snd (fst e)) (snd e) (i + 1) (j + 1)) (stack s) /\
  StronglySorted entry_before (stack s).

(** What an outcome says of the file it is printed for. *)
Definition faithful (lines : list pystr) (r : Result) : Prop :=
  match r with
  | Balanced => True
  | UnmatchedCloser c l k =>
    is_closer c = true /\ char_at lines l k = Some c
  | MismatchedCloser c l k e ol ok =>
    is_closer c = true /\ char_at lines l k = Some c /\ c <> e /\
    (exists o, is_opener o = true /\ char_at lines ol ok = Some o /\
               getitem delims o = Some e) /\
    pos_before ol ok l k
  | UnclosedOpeners c l k n =>
    is_opener c = true /\ char_at lines l k = Some c /\ (1 <= n)%nat
  end.

(** [l'] is [l] with whitespace added at its end. *)
Definition padded (l l' : pystr) : Prop :=
  exists ws, forallb isspace ws = true /\ l' = l ++ ws.

(** ** Well nested delimiters *)

(** The words in which every opening symbol is closed by the symbol
    [delims] gives for it, in the right order; the other characters are
    free. *)
Inductive nested : pystr -> Prop :=
| nested_nil : nested []
| nested_plain (c : char) (w : pystr) :
    is_opener c = false -> is_closer c = false ->
    nested w -> nested (c :: w)
| nested_pair (o e : char) (w1 w2 : pystr) :
    getitem delims o = Some e ->
    nested w1 -> nested w2 -> nested (o :: w1 ++ e :: w2).

(** The matching of a sequence of characters against a stack of opening
    symbols, top first: what the scan does of its stack, without the
    places.  [None]: a closing symbol found the stack empty or the wrong
    symbol on top. *)
Fixpoint match_delims (w : pystr) (st : pystr) : option pystr :=
  match w with
  | [] => Some st
  | c :: w' =>
    if is_opener c then match_delims w' (c :: st)
    else if is_closer c then
      match st with
      | [] => None
      | o :: st' =>
        match getitem delims o with
        | Some e => if c =? e then match_delims w' st' else None
        | None => None
        end
      end
    else match_delims w' st
  end.

(** [pre] is a word that leaves the opening symbols [st] open, top
    first: well nested words, with the symbols of [st] in between. *)
Inductive opens : pystr -> pystr -> Prop :=
| opens_nil (w : pystr) : nested w -> opens w []
| opens_push (pre st : pystr) (o : char) (w : pystr) :
    opens pre st -> is_opener o = true -> nested w ->
    opens (pre ++ o :: w) (o :: st).

(** The closing symbols that close the opening symbols [st], in order. *)
Fixpoint closers_for (st : pystr) : pystr :=
  match st with
  | [] => []
  | o :: st' =>
    match getitem delims o with
    | Some e => e :: closers_for st'
    | None => closers_for st'
    end
  end.

(** The opening symbols on the stack of a state, top first. *)
Definition symbols (s : state) : pystr :=
  rev (map (fun e : entry => fst (fst e)) (stack s)).

(** ** The end of a string literal *)

(** The column index of the first quote [q] the scan gets to among the
    characters [cs] of [line], from column index [j] on, that does not
    come right after a backslash: a quote after two slashes in a row is
    never got to, a quote after a backslash is escaped.  [None] when
    the line has no such quote. *)
Fixpoint first_closing (q : char) (line : pystr) (j : nat) (cs : pystr)
    : option nat :=
  match cs with
  | [] => None
  | c :: cs' =>
    if (c =? SLASH) && peek line (j + 1) SLASH then None
    else if (c =? q) && negb ((0 <? j)%nat && peek line (j - 1) BACKSLASH)
    then Some j
    else first_closing q line (S j) cs'
  end.

(** The context, in the reading of the specification, of the character
    [c] that follows [pre] on the line after the lines [before]. *)
Definition context_at (before : list pystr) (pre : pystr) (c : char)
    : context :=
  snd (visible_chars (pre ++ [c]) 0 pre (snd (visible_lines before Normal))).

(** ** Printing that fails

    [print] writes a line to standard output, or raises when the line
    cannot be written (a character standard output cannot encode, a
    closed stream); [can_print] tells which lines can be written.  Every
    [print] of [check_braces] is followed by a [return], by another
    [print], or by the end of the function, so the lines of a [Return]
    are written in order until one cannot be. *)




(** * Properties *)

(** ** Characters and lists *)

Lemma char_in_In (c : char) (xs : pystr) : char_in c xs = true <-> In c xs.
Proof.
  unfold char_in. rewrite existsb_exists. split.
  - intros [x [Hin Heq]]. apply N.eqb_eq in Heq. now subst.
  - intros Hin. exists c. split; [assumption | apply N.eqb_refl].
Qed.

Lemma is_opener_cases (c : char) :
  is_opener c = true -> c = LBRACE \/ c = LPAREN \/ c = LBRACKET.
Proof.
  intros H. apply char_in_In in H. simpl in H. intuition.
Qed.

Lemma is_closer_cases (c : char) :
  is_closer c = true -> c = RBRACE \/ c = RPAREN \/ c = RBRACKET.
Proof.
  intros H. apply char_in_In in H. simpl in H. intuition.
Qed.

Lemma is_quote_cases (c : char) :
  is_quote c = true -> c = DQUOTE \/ c = SQUOTE.
Proof.
  intros H. apply char_in_In in H. simpl in H. intuition.
Qed.

Lemma pystr_eqb_eq (a b : pystr) : pystr_eqb a b = true <-> a = b.
Proof.
  unfold pystr_eqb. destruct (list_eq_dec N.eq_dec a b); split; congruence.
Qed.

Lemma pystr_eqb_single (c q : char) : pystr_eqb [c] [q] = (c =? q).
Proof.
  destruct (N.eqb_spec c q) as [-> | Hne].
  - now apply pystr_eqb_eq.
  - destruct (pystr_eqb [c] [q]) eqn:E; [|reflexivity].
    apply pystr_eqb_eq in E. congruence.
Qed.

Lemma nth_peek (line : pystr) (k : nat) (x : char) :
  x <> 0 -> (nth k line 0 =? x) = peek line k x.
Proof.
  intros Hx. unfold peek.
  assert ((0 =? x) = false) as H0 by (apply N.eqb_neq; congruence).
  revert k. induction line as [|y line IH]; intros [|k]; cbn [nth nth_error];
    auto.
Qed.

Lemma bounded_nth_peek (line : pystr) (k : nat) (x : char) :
  x <> 0 -> ((k <? length line)%nat && (nth k line 0 =? x)) = peek line k x.
Proof.
  intros Hx. rewrite nth_peek by assumption. unfold peek.
  destruct (nth_error line k) eqn:E.
  - assert (k < length line)%nat as Hlt
      by (apply nth_error_Some; congruence).
    apply Nat.ltb_lt in Hlt. now rewrite Hlt.
  - apply andb_false_r.
Qed.

Lemma peek_app_here (pre suf : pystr) (c x : char) :
  peek (pre ++ c :: suf) (length pre) x = (c =? x).
Proof.
  unfold peek. rewrite nth_error_app2 by lia. now rewrite Nat.sub_diag.
Qed.

Lemma peek_agree (l1 l2 : pystr) (k : nat) (x : char) :
  nth_error l1 k = nth_error l2 k -> peek l1 k x = peek l2 k x.
Proof. unfold peek. now intros ->. Qed.

Lemma pop_snoc (st : list entry) (e : entry) : pop (st ++ [e]) = Some (st, e).
Proof. unfold pop. rewrite rev_app_distr. simpl. now rewrite rev_involutive. Qed.

Lemma top_snoc (st : list entry) (e : entry) : top (st ++ [e]) = Some e.
Proof. unfold top. now rewrite rev_app_distr. Qed.

Lemma snoc_cases (A : Type) (l : list A) :
  l = [] \/ exists l' x, l = l' ++ [x].
Proof.
  destruct (rev l) as [|x r] eqn:E.
  - left. apply (f_equal (@rev A)) in E. now rewrite rev_involutive in E.
  - right. exists (rev r), x. apply (f_equal (@rev A)) in E.
    now rewrite rev_involutive in E.
Qed.

(** ** The body of the inner loop, test by test *)

(** The two bounds checks of the body only guard the reads of [line]. *)
Lemma body_eq (line : pystr) (i j : nat) (c : char) (s : state) :
  body line i j c s =
  if in_comment s then Next s
  else if (c =? SLASH) && peek line (j + 1) SLASH then Break s
  else if is_quote c then
    if negb (in_string s) then Next (enter_string s c)
    else if pystr_eqb [c] (string_char s) then
      if (0 <? j)%nat && peek line (j - 1) BACKSLASH then Next s
      else Next (leave_string s)
    else Next s
  else if in_string s then Next s
  else if is_opener c then
    Next (set_stack s (stack s ++ [(c, (i + 1)%nat, (j + 1)%nat)]))
  else if is_closer c then
    match stack s with
    | [] => Return [msg_unmatched c (i + 1) (j + 1)]
    | _ :: _ =>
      match pop (stack s) with
      | None => Raise IndexError
      | Some (st', (start_char, start_line, start_col)) =>
        match getitem delims start_char with
        | None => Raise KeyError
        | Some expected_end =>
          if negb (c =? expected_end)
          then Return [msg_mismatched c (i + 1) (j + 1) expected_end
                         start_line start_col]
          else Next (set_stack s st')
        end
      end
    end
  else Next s.
Proof.
  unfold body. rewrite <- andb_assoc.
  rewrite bounded_nth_peek by (unfold SLASH; lia).
  rewrite nth_peek by (unfold BACKSLASH; lia).
  reflexivity.
Qed.

(** Splits on every test of the body in hypothesis [H]. *)
Ltac body_cases H :=
  rewrite body_eq in H;
  repeat match type of H with
         | context [if ?b then _ else _] =>
           destruct b eqn:?; cbv beta iota in H
         | context [match ?x with _ => _ end] =>
           destruct x eqn:?; cbv beta iota in H
         end.

Lemma wf_init : wf init.
Proof.
  split; simpl; [reflexivity | constructor | discriminate].
Qed.

Lemma Forall_snoc_inv (A : Type) (P : A -> Prop) (l : list A) (x : A) :
  Forall P (l ++ [x]) -> Forall P l /\ P x.
Proof.
  intros H. apply Forall_app in H. destruct H as [Hl Hx].
  split; [assumption | now inversion Hx].
Qed.

Lemma pop_Some (st st' : list entry) (e : entry) :
  pop st = Some (st', e) -> st = st' ++ [e].
Proof.
  destruct (snoc_cases _ st) as [-> | [l [x ->]]].
  - discriminate.
  - rewrite pop_snoc. now intros [= -> ->].
Qed.

(** A step of the scan keeps the invariant. *)
Lemma body_wf (line : pystr) (i j : nat) (c : char) (s s' : state) :
  wf s ->
  body line i j c s = Next s' \/ body line i j c s = Break s' ->
  wf s'.
Proof.
  intros Hwf H.
  assert (exists f, body line i j c s = f /\ (f = Next s' \/ f = Break s'))
    as [f [Hf Hor]] by (now exists (body line i j c s)).
  clear H. body_cases Hf; subst f;
    destruct Hor as [Heq | Heq]; try discriminate;
    injection Heq as <-;
    try assumption;
    destruct Hwf as [Hc Hs Hq].
  - (* a string starts *)
    split; simpl; try assumption. intros _. now exists c.
  - (* a string ends *)
    split; simpl; try assumption. discriminate.
  - (* push *)
    split; simpl; try assumption.
    apply Forall_app. split; [assumption|]. now repeat constructor.
  - (* pop *)
    split; simpl; try assumption.
    match goal with Hp : pop _ = Some _ |- _ => apply pop_Some in Hp end.
    match goal with
    | Hst : stack s = _, Hp : _ = _ ++ [_] |- _ => rewrite Hst, Hp in Hs
    end.
    now apply Forall_snoc_inv in Hs.
Qed.

Lemma for_chars_wf (line : pystr) (i : nat) (cs : pystr) :
  forall (j : nat) (s s' : state),
  wf s ->
  for_chars line i j cs s = Next s' \/ for_chars line i j cs s = Break s' ->
  wf s'.
Proof.
  induction cs as [|c cs IH]; intros j s s' Hwf H; simpl in H.
  - destruct H as [[= <-] | [=]]. assumption.
  - destruct (body line i j c s) as [s1 | s1 | out | e] eqn:Hb.
    + apply (IH (S j) s1); [|assumption].
      apply (body_wf line i j c s); auto.
    + destruct H as [[=] | [= <-]].
      apply (body_wf line i j c s); auto.
    + destruct H as [[=] | [=]].
    + destruct H as [[=] | [=]].
Qed.

(** The outer loop never ends on a [break]. *)
Lemma for_lines_not_break (lines : list pystr) :
  forall (i : nat) (s s' : state), for_lines i lines s <> Break s'.
Proof.
  induction lines as [|raw lines IH]; intros i s s'; simpl.
  - discriminate.
  - destruct (for_line i raw s); try apply IH; discriminate.
Qed.

Lemma for_lines_wf (lines : list pystr) :
  forall (i : nat) (s s' : state),
  wf s -> for_lines i lines s = Next s' -> wf s'.
Proof.
  induction lines as [|raw lines IH]; intros i s s' Hwf H; simpl in H.
  - now injection H as <-.
  - destruct (for_line i raw s) as [s1 | s1 | out | e] eqn:Hl;
      try discriminate;
      apply (IH (S i) s1); try assumption;
      apply (for_chars_wf (rstrip raw) i (rstrip raw) 0 s); auto.
Qed.

(** ** No exception, and the two early returns *)

Lemma pop_None (st : list entry) : pop st = None -> st = [].
Proof.
  destruct (snoc_cases _ st) as [-> | [l [x ->]]]; [reflexivity|].
  rewrite pop_snoc. discriminate.
Qed.

Lemma top_None (st : list entry) : top st = None -> st = [].
Proof.
  destruct (snoc_cases _ st) as [-> | [l [x ->]]]; [reflexivity|].
  rewrite top_snoc. discriminate.
Qed.

(** Every opening symbol is a key of [delims]. *)
Lemma getitem_opener (c : char) :
  is_opener c = true ->
  exists e, getitem delims c = Some e /\ is_closer e = true.
Proof.
  intros H. apply is_opener_cases in H.
  destruct H as [-> | [-> | ->]]; eexists; split; reflexivity.
Qed.

(** A step of the scan goes on, ends the line or returns early. *)
Lemma body_flow (line : pystr) (i j : nat) (c : char) (s : state) :
  wf s ->
  (exists s', body line i j c s = Next s') \/
  (exists s', body line i j c s = Break s') \/
  early (body line i j c s).
Proof.
  intros Hwf.
  assert (exists f, body line i j c s = f) as [f Hf] by eauto.
  rewrite Hf. body_cases Hf; subst f; eauto.
  - right. right. left. now eexists _, _, _.
  - right. right. right. now eexists _, _, _, _, _, _.
  - (* no key error *)
    exfalso. destruct Hwf as [_ Hs _].
    match goal with Hp : pop _ = Some _ |- _ => apply pop_Some in Hp end.
    match goal with
    | Hst : stack s = _, Hp : _ = _ ++ [_] |- _ => rewrite Hst, Hp in Hs
    end.
    apply Forall_snoc_inv in Hs. destruct Hs as [_ Hs]. simpl in Hs.
    apply getitem_opener in Hs. destruct Hs as [x [Hx _]]. congruence.
  - (* no index error *)
    exfalso.
    match goal with Hp : pop _ = None |- _ => apply pop_None in Hp;
      discriminate Hp end.
Qed.

Lemma for_chars_flow (line : pystr) (i : nat) (cs : pystr) :
  forall (j : nat) (s : state),
  wf s ->
  (exists s', for_chars line i j cs s = Next s') \/
  (exists s', for_chars line i j cs s = Break s') \/
  early (for_chars line i j cs s).
Proof.
  induction cs as [|c cs IH]; intros j s Hwf; simpl.
  - eauto.
  - destruct (body_flow line i j c s Hwf) as [[s' H] | [[s' H] | H]].
    + rewrite H. apply IH. apply (body_wf line i j c s); auto.
    + rewrite H. eauto.
    + destruct H as [[x [l [k H]]] | [x [l [k [e [ol [ok H]]]]]]];
        rewrite H; simpl; right; right; [left | right].
      * now exists x, l, k.
      * now exists x, l, k, e, ol, ok.
Qed.

Lemma for_lines_flow (lines : list pystr) :
  forall (i : nat) (s : state),
  wf s ->
  (exists s', for_lines i lines s = Next s') \/ early (for_lines i lines s).
Proof.
  induction lines as [|raw lines IH]; intros i s Hwf; simpl.
  - eauto.
  - unfold for_line.
    destruct (for_chars_flow (rstrip raw) i (rstrip raw) 0 s Hwf)
      as [[s' H] | [[s' H] | H]].
    + rewrite H. apply IH.
      apply (for_chars_wf (rstrip raw) i (rstrip raw) 0 s); auto.
    + rewrite H. apply IH.
      apply (for_chars_wf (rstrip raw) i (rstrip raw) 0 s); auto.
    + destruct H as [[x [l [k H]]] | [x [l [k [e [ol [ok H]]]]]]];
        rewrite H; simpl; right; [left | right].
      * now exists x, l, k.
      * now exists x, l, k, e, ol, ok.
Qed.

(** The report after the loops only reads the stack. *)
Lemma report_empty (s : state) : stack s = [] -> report s = printed Balanced.
Proof. unfold report. now intros ->. Qed.

Lemma report_snoc (s : state) (st : list entry) (c : char) (l k : nat) :
  stack s = st ++ [(c, l, k)] ->
  report s = printed (UnclosedOpeners c l k (length (stack s))).
Proof.
  intros E. unfold report. rewrite E, top_snoc.
  destruct st; reflexivity.
Qed.

(** ** The loops, piece by piece *)

Lemma for_chars_app (line : pystr) (i : nat) (pre suf : pystr) :
  forall (j : nat) (s : state),
  for_chars line i j (pre ++ suf) s =
  match for_chars line i j pre s with
  | Next s' => for_chars line i (j + length pre) suf s'
  | r => r
  end.
Proof.
  induction pre as [|c pre IH]; intros j s; simpl.
  - now rewrite Nat.add_0_r.
  - destruct (body line i j c s); try reflexivity.
    rewrite IH. now rewrite Nat.add_succ_r.
Qed.

Lemma for_lines_app (before after : list pystr) :
  forall (i : nat) (s : state),
  for_lines i (before ++ after) s =
  match for_lines i before s with
  | Next s' => for_lines (i + length before) after s'
  | r => r
  end.
Proof.
  induction before as [|raw before IH]; intros i s; simpl.
  - now rewrite Nat.add_0_r.
  - destruct (for_line i raw s); try reflexivity;
      rewrite IH; now rewrite Nat.add_succ_r.
Qed.

(** The body reads [line] at the indices [j - 1] and [j + 1] only. *)
Lemma body_ctx (l1 l2 : pystr) (i j : nat) (c : char) (s : state) :
  (forall k, (k <= j + 1)%nat -> nth_error l1 k = nth_error l2 k) ->
  body l1 i j c s = body l2 i j c s.
Proof.
  intros H. rewrite !body_eq.
  rewrite (peek_agree l1 l2 (j + 1)) by (apply H; lia).
  rewrite (peek_agree l1 l2 (j - 1)) by (apply H; lia).
  reflexivity.
Qed.

(** The visit of [cs] from index [j] reads no character of [line] beyond
    the one that follows [cs]. *)
Lemma for_chars_ctx (l1 l2 : pystr) (i : nat) (cs : pystr) :
  forall (j : nat) (s : state),
  (forall k, (k <= j + length cs)%nat -> nth_error l1 k = nth_error l2 k) ->
  for_chars l1 i j cs s = for_chars l2 i j cs s.
Proof.
  induction cs as [|c cs IH]; intros j s H; simpl.
  - reflexivity.
  - rewrite (body_ctx l1 l2) by (intros k Hk; apply H; simpl; lia).
    destruct (body l2 i j c s); try reflexivity.
    apply IH. intros k Hk. apply H. simpl. lia.
Qed.

Lemma prefix_ctx (pre suf : pystr) (c : char) (k : nat) :
  (k <= length pre)%nat ->
  nth_error (pre ++ [c]) k = nth_error (pre ++ c :: suf) k.
Proof.
  intros Hk. destruct (Nat.eq_dec k (length pre)) as [-> | Hne].
  - rewrite !nth_error_app2 by lia. now rewrite Nat.sub_diag.
  - rewrite !nth_error_app1 by lia. reflexivity.
Qed.

Lemma reaches_wf (before : list pystr) (pre : pystr) (c : char) (s : state) :
  reaches before pre c s -> wf s.
Proof.
  intros [s0 [H0 H1]].
  apply (for_chars_wf (pre ++ [c]) (length before) pre 0 s0); [|auto].
  apply (for_lines_wf before 0 init); [apply wf_init | assumption].
Qed.

(** Where the scan has got to, the loops go on with the body at that
    character. *)
Lemma for_lines_at (before after : list pystr) (raw pre suf : pystr)
    (c : char) (s : state) :
  reaches before pre c s ->
  rstrip raw = pre ++ c :: suf ->
  for_lines 0 (before ++ raw :: after) init =
  match body (pre ++ c :: suf) (length before) (length pre) c s with
  | Next s' =>
    resume (pre ++ c :: suf) (length before) (S (length pre)) suf after s'
  | Break s' => for_lines (S (length before)) after s'
  | r => r
  end.
Proof.
  intros [s0 [H0 H1]] Hraw.
  rewrite for_lines_app, H0. simpl. unfold for_line. rewrite Hraw.
  rewrite for_chars_app.
  rewrite <- (for_chars_ctx (pre ++ [c]) (pre ++ c :: suf))
    by (intros k Hk; apply prefix_ctx; simpl in Hk; lia).
  rewrite H1. simpl. unfold resume.
  destruct (body (pre ++ c :: suf) (length before) (length pre) c s);
    reflexivity.
Qed.

Lemma closer_tests (c : char) :
  is_closer c = true ->
  (c =? SLASH) = false /\ is_quote c = false /\ is_opener c = false.
Proof.
  intros H. apply is_closer_cases in H.
  destruct H as [-> | [-> | ->]]; repeat split; reflexivity.
Qed.

Lemma opener_tests (c : char) :
  is_opener c = true -> (c =? SLASH) = false /\ is_quote c = false.
Proof.
  intros H. apply is_opener_cases in H.
  destruct H as [-> | [-> | ->]]; repeat split; reflexivity.
Qed.

Lemma quote_tests (c : char) : is_quote c = true -> (c =? SLASH) = false.
Proof.
  intros H. apply is_quote_cases in H. destruct H as [-> | ->]; reflexivity.
Qed.

(** The body at a closing symbol outside string and comment context. *)
Lemma body_closer (line : pystr) (i j : nat) (c : char) (s : state) :
  in_comment s = false -> in_string s = false -> is_closer c = true ->
  body line i j c s =
  match stack s with
  | [] => Return [msg_unmatched c (i + 1) (j + 1)]
  | _ :: _ =>
    match pop (stack s) with
    | None => Raise IndexError
    | Some (st', (start_char, start_line, start_col)) =>
      match getitem delims start_char with
      | None => Raise KeyError
      | Some expected_end =>
        if negb (c =? expected_end)
        then Return [msg_mismatched c (i + 1) (j + 1) expected_end
                       start_line start_col]
        else Next (set_stack s st')
      end
    end
  end.
Proof.
  intros Hc Hs Hcl. destruct (closer_tests c Hcl) as [H1 [H2 H3]].
  rewrite body_eq, Hc, Hs, H1, H2, H3, Hcl. reflexivity.
Qed.

(** ** Unmatched closer *)

(** C1. When the scan gets to a closing symbol outside string and comment
    context and the stack is empty, the call prints
    [Error: Unmatched '<char>' at line <L>, column <C>] with the 1-based
    line and column of that symbol and returns: whatever follows the
    symbol on its line ([suf]) and on the later lines ([after]) has no
    part in the result.  A file that holds a single closing parenthesis,
    with or without a final newline, gives the message for line 1,
    column 1. *)
Theorem C1_unmatched_closer :
  (forall (before : list pystr) (pre : pystr) (c : char) (s : state),
     reaches before pre c s ->
     is_closer c = true -> in_string s = false -> stack s = [] ->
     forall (raw suf : pystr) (after : list pystr),
       rstrip raw = pre ++ c :: suf ->
       scan (before ++ raw :: after) =
         printed (UnmatchedCloser c (length before + 1) (length pre + 1)) /\
       forall fs filepath,
         fs filepath = Lines (before ++ raw :: after) ->
         check_braces fs filepath =
           Return [str "Error: Unmatched '" ++ [c] ++ str "' at line "
                   ++ str_of_int (length before + 1) ++ str ", column "
                   ++ str_of_int (length pre + 1)]) /\
  scan [str ")"] = printed (UnmatchedCloser RPAREN 1 1) /\
  scan [str ")" ++ [NEWLINE]] = printed (UnmatchedCloser RPAREN 1 1) /\
  scan [str ")"] = Return [str "Error: Unmatched ')' at line 1, column 1"].
Proof.
  split; [|repeat split; reflexivity].
  intros before pre c s Hr Hcl Hs Hst raw suf after Hraw.
  assert (scan (before ++ raw :: after) =
          printed (UnmatchedCloser c (length before + 1) (length pre + 1)))
    as Hscan.
  { unfold scan. rewrite (for_lines_at before after raw pre suf c s Hr Hraw).
    rewrite body_closer, Hst; auto. apply (reaches_wf _ _ _ _ Hr). }
  split; [assumption|].
  intros fs filepath Hfs. unfold check_braces. rewrite Hfs, Hscan. reflexivity.
Qed.

Lemma C1_unmatched_closer_witness :
  reaches [str "( )"] (str "ab") RBRACKET init /\
  scan ([str "( )"] ++ (str "ab] {" ++ [NEWLINE]) :: [str "}"]) =
    printed (UnmatchedCloser RBRACKET 2 3).
Proof.
  assert (reaches [str "( )"] (str "ab") RBRACKET init) as Hr
    by (exists init; split; reflexivity).
  split; [exact Hr|].
  apply (proj1 C1_unmatched_closer [str "( )"] (str "ab") RBRACKET init Hr
           eq_refl eq_refl eq_refl
           (str "ab] {" ++ [NEWLINE]) (str " {") [str "}"] eq_refl).
Defined.

(** ** Mismatched closer *)

(** C2. When the scan gets to a closing symbol outside string and comment
    context and the stack is not empty, the top entry [(o, l, k)] is
    popped.  If the closing symbol [e] that [o] requires differs from the
    character, the call prints the mismatch message (the character, its
    line and column, [e], and the place [l]:[k] where [o] was opened) and
    returns, whatever follows; otherwise the scan goes on from the next
    character with the stack without its top.  The line [(]] gives the
    message for the square bracket at line 1, column 2, expected closing
    parenthesis, opened at 1:1. *)
Theorem C2_mismatched_closer :
  (forall (before : list pystr) (pre : pystr) (c : char) (s : state)
          (st : list entry) (o : char) (l k : nat) (e : char),
     reaches before pre c s ->
     is_closer c = true -> in_string s = false ->
     stack s = st ++ [(o, l, k)] ->
     getitem delims o = Some e ->
     forall (raw suf : pystr) (after : list pystr),
       rstrip raw = pre ++ c :: suf ->
       (c <> e ->
        scan (before ++ raw :: after) =
          printed (MismatchedCloser c (length before + 1) (length pre + 1)
                     e l k)) /\
       (c = e ->
        body (pre ++ c :: suf) (length before) (length pre) c s =
          Next (set_stack s st) /\
        scan (before ++ raw :: after) =
          finish (resume (pre ++ c :: suf) (length before) (S (length pre))
                    suf after (set_stack s st)))) /\
  scan [str "(]"] = printed (MismatchedCloser RBRACKET 1 2 RPAREN 1 1) /\
  scan [str "(]"] =
    Return [str "Error: Mismatched delimiter ']' at line 1, column 2. Expected ')' (opened at 1:1)"].
Proof.
  split; [|split; reflexivity].
  intros before pre c s st o l k e Hr Hcl Hs Hst He raw suf after Hraw.
  assert (body (pre ++ c :: suf) (length before) (length pre) c s =
          if negb (c =? e)
          then Return [msg_mismatched c (length before + 1) (length pre + 1)
                         e l k]
          else Next (set_stack s st)) as Hb.
  { rewrite body_closer, Hst, pop_snoc, He; auto.
    - destruct st; reflexivity.
    - apply (reaches_wf _ _ _ _ Hr). }
  unfold scan. rewrite (for_lines_at before after raw pre suf c s Hr Hraw).
  rewrite Hb. split; intros Hce.
  - apply N.eqb_neq in Hce. rewrite Hce. reflexivity.
  - apply N.eqb_eq in Hce. rewrite Hce. split; reflexivity.
Qed.

Lemma C2_mismatched_closer_witness :
  reaches [str "{"] (str "f(x") RBRACE
    {| stack := [(LBRACE, 1, 1); (LPAREN, 2, 2)]%nat; in_string := false;
       string_char := []; in_comment := false |} /\
  scan ([str "{"] ++ str "f(x}  " :: [str ")"]) =
    printed (MismatchedCloser RBRACE 2 4 RPAREN 2 2).
Proof.
  assert (reaches [str "{"] (str "f(x") RBRACE
            {| stack := [(LBRACE, 1, 1); (LPAREN, 2, 2)]%nat;
               in_string := false; string_char := [];
               in_comment := false |}) as Hr
    by (eexists; split; reflexivity).
  split; [exact Hr|].
  apply (proj1 C2_mismatched_closer [str "{"] (str "f(x") RBRACE _
           [(LBRACE, 1, 1)]%nat LPAREN 2%nat 2%nat RPAREN Hr
           eq_refl eq_refl eq_refl eq_refl
           (str "f(x}  ") [] [str ")"] eq_refl).
  discriminate.
Defined.

(** ** End of input *)

(** C3. When both loops run to the end of the input, in state [s]: if the
    stack is not empty, the call prints the unclosed message for the top
    entry of the stack, with the length of the stack as the total; if the
    stack is empty, it prints that all delimiters are balanced.  The
    loops do run to the end unless the call returned early at an
    unmatched or mismatched closer: nothing else can happen.  A single
    opening parenthesis gives the unclosed message for line 1, column 1,
    total 1. *)
Theorem C3_end_of_input :
  (forall (lines : list pystr) (s : state),
     for_lines 0 lines init = Next s ->
     (stack s = [] -> scan lines = printed Balanced) /\
     (forall st c l k,
        stack s = st ++ [(c, l, k)] ->
        scan lines = printed (UnclosedOpeners c l k (length (stack s)))) /\
     (stack s = [] \/ exists st c l k, stack s = st ++ [(c, l, k)])) /\
  (forall lines : list pystr,
     early (scan lines) \/ exists s, for_lines 0 lines init = Next s) /\
  scan [str "("] = printed (UnclosedOpeners LPAREN 1 1 1) /\
  scan [str "("] = Return [str "Error: Unclosed '(' at line 1, column 1";
                            str "Total unclosed delimiters: 1"] /\
  scan [] = Return [str "All delimiters are balanced."].
Proof.
  split; [|split; [|repeat split; reflexivity]].
  - intros lines s Hs. unfold scan. rewrite Hs. simpl.
    split; [apply report_empty|].
    split; [intros st c l k; apply report_snoc|].
    destruct (snoc_cases _ (stack s)) as [E | [st [[[c l] k] E]]]; eauto 6.
  - intros lines.
    destruct (for_lines_flow lines 0 init wf_init) as [[s Hs] | He].
    + right. now exists s.
    + left. unfold scan.
      destruct He as [[x [l [k H]]] | [x [l [k [e [ol [ok H]]]]]]];
        rewrite H; simpl; [left | right].
      * now exists x, l, k.
      * now exists x, l, k, e, ol, ok.
Qed.

Lemma C3_end_of_input_witness :
  for_lines 0 [str "{ ("; str "[ ]"] init =
    Next {| stack := [(LBRACE, 1, 1); (LPAREN, 1, 3)]%nat; in_string := false;
            string_char := []; in_comment := false |} /\
  scan [str "{ ("; str "[ ]"] = printed (UnclosedOpeners LPAREN 1 3 2).
Proof.
  split; [reflexivity|].
  apply (proj1 (proj2 (proj1 C3_end_of_input [str "{ ("; str "[ ]"] _
                         eq_refl))
           [(LBRACE, 1, 1)]%nat LPAREN 1%nat 3%nat eq_refl).
Defined.

(** ** String literals *)

(** A quote character only moves the scan into or out of a string. *)
Lemma body_quote (line : pystr) (i j : nat) (c : char) (s : state) :
  in_comment s = false -> is_quote c = true ->
  exists s', body line i j c s = Next s' /\ stack s' = stack s.
Proof.
  intros Hc Hq. rewrite body_eq, Hc, (quote_tests c Hq), Hq. simpl.
  destruct (negb (in_string s)); [now eexists|].
  destruct (pystr_eqb [c] (string_char s)); [|now eexists].
  destruct ((0 <? j)%nat && peek line (j - 1) BACKSLASH); now eexists.
Qed.

(** Inside a string, a delimiter is skipped. *)
Lemma body_delimiter_in_string (line : pystr) (i j : nat) (c : char)
    (s : state) :
  in_comment s = false -> in_string s = true ->
  is_opener c = true \/ is_closer c = true ->
  body line i j c s = Next s.
Proof.
  intros Hc Hs Hd. rewrite body_eq, Hc, Hs.
  destruct Hd as [Ho | Hcl].
  - destruct (opener_tests c Ho) as [-> ->]. reflexivity.
  - destruct (closer_tests c Hcl) as [-> [-> _]]. reflexivity.
Qed.

(** C4. When the scan gets to an opening or closing symbol while inside a
    string literal, the symbol is skipped: the state, and so the stack, is
    left as it is (nothing pushed, nothing popped or compared) and the
    scan goes on from the next character.  When the scan gets to a quote
    character, in any context, it goes on from the next character with
    the same stack: a quote is never pushed nor matched.  The line made
    of an opening parenthesis between two double quotes is balanced. *)
Theorem C4_delimiters_in_strings :
  (forall (before : list pystr) (pre : pystr) (c : char) (s : state),
     reaches before pre c s ->
     in_string s = true ->
     is_opener c = true \/ is_closer c = true ->
     forall (raw suf : pystr) (after : list pystr),
       rstrip raw = pre ++ c :: suf ->
       body (pre ++ c :: suf) (length before) (length pre) c s = Next s /\
       scan (before ++ raw :: after) =
         finish (resume (pre ++ c :: suf) (length before) (S (length pre))
                   suf after s)) /\
  (forall (before : list pystr) (pre : pystr) (c : char) (s : state),
     reaches before pre c s ->
     is_quote c = true ->
     forall (raw suf : pystr) (after : list pystr),
       rstrip raw = pre ++ c :: suf ->
       exists s',
         body (pre ++ c :: suf) (length before) (length pre) c s = Next s' /\
         stack s' = stack s /\
         scan (before ++ raw :: after) =
           finish (resume (pre ++ c :: suf) (length before) (S (length pre))
                     suf after s')) /\
  scan [[DQUOTE; LPAREN; DQUOTE]] = printed Balanced /\
  scan [[DQUOTE; LPAREN; DQUOTE]] = Return [str "All delimiters are balanced."].
Proof.
  split; [|split; [|split; reflexivity]].
  - intros before pre c s Hr Hs Hd raw suf after Hraw.
    assert (body (pre ++ c :: suf) (length before) (length pre) c s = Next s)
      as Hb
      by (apply body_delimiter_in_string; auto;
          apply (reaches_wf _ _ _ _ Hr)).
    split; [assumption|].
    unfold scan. rewrite (for_lines_at before after raw pre suf c s Hr Hraw).
    now rewrite Hb.
  - intros before pre c s Hr Hq raw suf after Hraw.
    destruct (body_quote (pre ++ c :: suf) (length before) (length pre) c s)
      as [s' [Hb Hst]]; auto.
    { apply (reaches_wf _ _ _ _ Hr). }
    exists s'. split; [assumption|]. split; [assumption|].
    unfold scan. rewrite (for_lines_at before after raw pre suf c s Hr Hraw).
    now rewrite Hb.
Qed.

Lemma C4_delimiters_in_strings_witness :
  reaches [str "("] (SQUOTE :: str "a") RBRACKET
    {| stack := [(LPAREN, 1, 1)]%nat; in_string := true;
       string_char := [SQUOTE]; in_comment := false |} /\
  scan ([str "("] ++ (SQUOTE :: str "a]'") :: [str ")"]) = printed Balanced.
Proof.
  assert (reaches [str "("] (SQUOTE :: str "a") RBRACKET
            {| stack := [(LPAREN, 1, 1)]%nat; in_string := true;
               string_char := [SQUOTE]; in_comment := false |}) as Hr
    by (eexists; split; reflexivity).
  split; [exact Hr|].
  refine (eq_trans
            (proj2 (proj1 C4_delimiters_in_strings [str "("]
                      (SQUOTE :: str "a") RBRACKET _ Hr eq_refl
                      (or_intror eq_refl)
                      (SQUOTE :: str "a]'") (str "'") [str ")"] eq_refl)) _).
  reflexivity.
Defined.

(** ** Line comments *)

(** Two slashes in a row end the visit of the line, in any state the scan
    can be in. *)
Lemma body_comment (line : pystr) (i j : nat) (s : state) :
  in_comment s = false -> peek line (j + 1) SLASH = true ->
  body line i j SLASH s = Break s.
Proof.
  intros Hc Hp. rewrite body_eq, Hc, Hp. reflexivity.
Qed.

(** C5. When the scan gets to a slash that is followed by a slash on the
    same line, the visit of the line stops there with the state as it is,
    inside a string literal as well as outside (no condition on
    [in_string]): what follows on the line ([suf]) is never read, so two
    lines that differ only after the two slashes give the same result.
    The scan goes on with the next line from its first character, in a
    state whose [in_comment] is false: the comment does not reach past
    the end of its line.  The line with two slashes, a space and an
    opening parenthesis is balanced; and two slashes inside a string
    literal hide the quote that would close it. *)
Theorem C5_line_comment :
  (forall (before : list pystr) (pre : pystr) (s : state),
     reaches before pre SLASH s ->
     forall (raw suf : pystr) (after : list pystr),
       rstrip raw = pre ++ SLASH :: SLASH :: suf ->
       body (pre ++ SLASH :: SLASH :: suf) (length before) (length pre)
         SLASH s = Break s /\
       scan (before ++ raw :: after) =
         finish (for_lines (S (length before)) after s) /\
       in_comment s = false) /\
  (forall (before : list pystr) (pre : pystr) (s : state),
     reaches before pre SLASH s ->
     forall (raw1 raw2 suf1 suf2 : pystr) (after : list pystr),
       rstrip raw1 = pre ++ SLASH :: SLASH :: suf1 ->
       rstrip raw2 = pre ++ SLASH :: SLASH :: suf2 ->
       scan (before ++ raw1 :: after) = scan (before ++ raw2 :: after)) /\
  scan [str "// ("] = printed Balanced /\
  scan [str "x = 1 // )"; str "// ]"] = printed Balanced /\
  scan [DQUOTE :: str "a // b" ++ [DQUOTE]; str "("] = printed Balanced.
Proof.
  assert (forall (before : list pystr) (pre : pystr) (s : state),
     reaches before pre SLASH s ->
     forall (raw suf : pystr) (after : list pystr),
       rstrip raw = pre ++ SLASH :: SLASH :: suf ->
       body (pre ++ SLASH :: SLASH :: suf) (length before) (length pre)
         SLASH s = Break s /\
       scan (before ++ raw :: after) =
         finish (for_lines (S (length before)) after s) /\
       in_comment s = false) as Hmain.
  { intros before pre s Hr raw suf after Hraw.
    pose proof (wf_comment s (reaches_wf _ _ _ _ Hr)) as Hc.
    assert (body (pre ++ SLASH :: SLASH :: suf) (length before) (length pre)
              SLASH s = Break s) as Hb.
    { apply body_comment; [assumption|].
      unfold peek. rewrite nth_error_app2 by lia.
      replace (length pre + 1 - length pre)%nat with 1%nat by lia.
      reflexivity. }
    split; [assumption|]. split; [|assumption].
    unfold scan.
    rewrite (for_lines_at before after raw pre (SLASH :: suf) SLASH s Hr Hraw).
    now rewrite Hb. }
  split; [exact Hmain|]. split; [|repeat split; reflexivity].
  intros before pre s Hr raw1 raw2 suf1 suf2 after H1 H2.
  destruct (Hmain before pre s Hr raw1 suf1 after H1) as [_ [-> _]].
  destruct (Hmain before pre s Hr raw2 suf2 after H2) as [_ [-> _]].
  reflexivity.
Qed.

Lemma C5_line_comment_witness :
  reaches [str "{"] (DQUOTE :: str "a ") SLASH
    {| stack := [(LBRACE, 1, 1)]%nat; in_string := true;
       string_char := [DQUOTE]; in_comment := false |} /\
  scan ([str "{"] ++ (DQUOTE :: str "a // )" ++ [DQUOTE]) :: [str "}"]) =
    Return [str "Error: Unclosed '{' at line 1, column 1";
            str "Total unclosed delimiters: 1"].
Proof.
  assert (reaches [str "{"] (DQUOTE :: str "a ") SLASH
            {| stack := [(LBRACE, 1, 1)]%nat; in_string := true;
               string_char := [DQUOTE]; in_comment := false |}) as Hr
    by (eexists; split; reflexivity).
  split; [exact Hr|].
  refine (eq_trans
            (proj1 (proj2 (proj1 C5_line_comment [str "{"]
                             (DQUOTE :: str "a ") _ Hr
                             (DQUOTE :: str "a // )" ++ [DQUOTE])
                             (str " )" ++ [DQUOTE]) [str "}"] eq_refl))) _).
  reflexivity.
Defined.

(** ** Strings across lines, and escaped quotes *)

Lemma lstrip_In (x : char) (l : pystr) : In x (lstrip l) -> In x l.
Proof.
  induction l as [|c l IH]; simpl; [easy|].
  destruct (isspace c); [right; now apply IH | easy].
Qed.

Lemma rstrip_In (x : char) (l : pystr) : In x (rstrip l) -> In x l.
Proof.
  unfold rstrip. intros H. apply in_rev in H. apply lstrip_In in H.
  now apply in_rev.
Qed.

(** The body at the quote that opened the string the scan is in. *)
Lemma body_matching_quote (line : pystr) (i j : nat) (q : char) (s : state) :
  wf s -> in_string s = true -> string_char s = [q] ->
  body line i j q s =
  if (0 <? j)%nat && peek line (j - 1) BACKSLASH then Next s
  else Next (leave_string s).
Proof.
  intros Hwf Hs Hq.
  destruct (wf_string s Hwf Hs) as [q' [Hq' Hquote]].
  assert (q' = q) as -> by congruence.
  rewrite body_eq, (wf_comment s Hwf), (quote_tests q Hquote), Hquote, Hs, Hq.
  simpl. rewrite pystr_eqb_single, N.eqb_refl. reflexivity.
Qed.

(** Inside a string, any other character leaves the state as it is. *)
Lemma body_in_string (line : pystr) (i j : nat) (c q : char) (s : state) :
  in_comment s = false -> in_string s = true -> string_char s = [q] ->
  c <> q ->
  body line i j c s = Next s \/ body line i j c s = Break s.
Proof.
  intros Hc Hs Hq Hne. rewrite body_eq, Hc, Hs, Hq, pystr_eqb_single.
  apply N.eqb_neq in Hne. rewrite Hne. simpl.
  destruct ((c =? SLASH) && peek line (j + 1) SLASH); [now right|].
  destruct (is_quote c); now left.
Qed.

Lemma for_chars_in_string (line : pystr) (i : nat) (q : char) (s : state)
    (cs : pystr) :
  in_comment s = false -> in_string s = true -> string_char s = [q] ->
  ~ In q cs ->
  forall j, for_chars line i j cs s = Next s \/ for_chars line i j cs s = Break s.
Proof.
  intros Hc Hs Hq. induction cs as [|c cs IH]; intros Hnin j; simpl.
  - now left.
  - destruct (body_in_string line i j c q s Hc Hs Hq) as [-> | ->].
    + intros ->. apply Hnin. now left.
    + apply IH. intros Hin. apply Hnin. now right.
    + now right.
Qed.

Lemma for_lines_in_string (q : char) (s : state) (mid : list pystr) :
  in_comment s = false -> in_string s = true -> string_char s = [q] ->
  Forall (fun raw => ~ In q raw) mid ->
  forall i, for_lines i mid s = Next s.
Proof.
  intros Hc Hs Hq. induction mid as [|raw mid IH]; intros Hall i; simpl.
  - reflexivity.
  - inversion Hall as [|? ? Hraw Hmid]; subst. unfold for_line.
    destruct (for_chars_in_string (rstrip raw) i q s (rstrip raw) Hc Hs Hq)
      with (j := 0%nat) as [-> | ->]; try (now apply IH).
    intros Hin. apply Hraw. now apply rstrip_In.
Qed.

(** The body at any character, inside a string opened by [q]. *)
Lemma body_inside (line : pystr) (i j : nat) (c q : char) (s : state) :
  wf s -> in_string s = true -> string_char s = [q] ->
  body line i j c s =
  if (c =? SLASH) && peek line (j + 1) SLASH then Break s
  else if (c =? q) && negb ((0 <? j)%nat && peek line (j - 1) BACKSLASH)
  then Next (leave_string s)
  else Next s.
Proof.
  intros Hwf Hs Hq.
  destruct (wf_string s Hwf Hs) as [q' [Hq' Hquote]].
  assert (q' = q) as -> by congruence.
  rewrite body_eq, (wf_comment s Hwf), Hs, Hq, pystr_eqb_single.
  destruct ((c =? SLASH) && peek line (j + 1) SLASH); [reflexivity|].
  cbn [negb]. destruct (N.eqb_spec c q) as [-> | Hne].
  - rewrite Hquote. cbn [andb].
    now destruct ((0 <? j)%nat && peek line (j - 1) BACKSLASH).
  - cbn [andb]. now destruct (is_quote c).
Qed.

(** A line without a closing quote leaves the state as it is. *)
Lemma for_chars_no_closing (line : pystr) (i : nat) (q : char) (s : state)
    (cs : pystr) :
  wf s -> in_string s = true -> string_char s = [q] ->
  forall j,
    first_closing q line j cs = None ->
    for_chars line i j cs s = Next s \/ for_chars line i j cs s = Break s.
Proof.
  intros Hwf Hs Hq. induction cs as [|c cs IH]; intros j Hf; simpl in *.
  - now left.
  - rewrite (body_inside line i j c q s Hwf Hs Hq).
    destruct ((c =? SLASH) && peek line (j + 1) SLASH); [now right|].
    destruct ((c =? q) && negb ((0 <? j)%nat && peek line (j - 1) BACKSLASH));
      [discriminate|].
    now apply IH.
Qed.

(** Up to its closing quote a line leaves the state as it is, and the
    closing quote ends the string. *)
Lemma for_chars_closing (line : pystr) (i : nat) (q : char) (s : state)
    (cs : pystr) :
  wf s -> in_string s = true -> string_char s = [q] ->
  forall j k,
    first_closing q line j cs = Some k ->
    exists pre suf,
      cs = pre ++ q :: suf /\ k = (j + length pre)%nat /\
      for_chars line i j pre s = Next s /\
      body line i k q s = Next (leave_string s).
Proof.
  intros Hwf Hs Hq. induction cs as [|c cs IH]; intros j k Hf; simpl in *.
  - discriminate.
  - pose proof (body_inside line i j c q s Hwf Hs Hq) as Hb.
    destruct ((c =? SLASH) && peek line (j + 1) SLASH); [discriminate|].
    destruct ((c =? q) && negb ((0 <? j)%nat && peek line (j - 1) BACKSLASH))
      eqn:Hclose.
    + injection Hf as <-. apply andb_true_iff in Hclose.
      destruct Hclose as [Hcq _]. apply N.eqb_eq in Hcq. subst c.
      exists [], cs. simpl. rewrite Nat.add_0_r. now repeat split.
    + destruct (IH (S j) k Hf) as [pre [suf [-> [-> [Hpre Hq']]]]].
      exists (c :: pre), suf. simpl. rewrite Hb.
      repeat split; try assumption. lia.
Qed.

Lemma for_lines_no_closing (q : char) (s : state) (mid : list pystr) :
  wf s -> in_string s = true -> string_char s = [q] ->
  Forall (fun raw => first_closing q (rstrip raw) 0 (rstrip raw) = None) mid ->
  forall i, for_lines i mid s = Next s.
Proof.
  intros Hwf Hs Hq. induction 1 as [|raw mid Hraw _ IH]; intros i; simpl.
  - reflexivity.
  - unfold for_line.
    destruct (for_chars_no_closing (rstrip raw) i q s (rstrip raw) Hwf Hs Hq
                0 Hraw) as [-> | ->]; apply IH.
Qed.

Lemma first_closing_absent (q : char) (line : pystr) (cs : pystr) :
  ~ In q cs -> forall j, first_closing q line j cs = None.
Proof.
  induction cs as [|c cs IH]; intros Hnin j; simpl; [reflexivity|].
  destruct ((c =? SLASH) && peek line (j + 1) SLASH); [reflexivity|].
  destruct (N.eqb_spec c q) as [-> | _]; [exfalso; apply Hnin; now left|].
  cbn [andb]. apply IH. intros Hin. apply Hnin. now right.
Qed.

(** C6. The state of a string literal is carried from a line to the next.
    If the lines [before] end inside a string opened by the quote [q],
    the scan stays in that string, with the same stack, over every
    following line that has no closing quote, whatever delimiters those
    lines hold: a line closes the string only at a [q] the scan gets to
    (not after two slashes in a row) that does not come right after a
    backslash; in particular a line that does not hold [q] does not.
    On the first following line that has a closing quote, the scan is
    still in the string up to that quote, and there the string ends:
    [in_string] becomes false, the stack is kept, and the scan goes on
    from the next character outside the string.  The two lines made of a
    double quote and an opening parenthesis, then of a closing
    parenthesis, are balanced; with a double quote, a space and an
    opening parenthesis added to the second line, that parenthesis is
    outside the string and is reported unclosed. *)
Theorem C6_string_across_lines :
  (forall (before mid : list pystr) (q : char) (s : state),
     for_lines 0 before init = Next s ->
     in_string s = true -> string_char s = [q] ->
     Forall (fun raw => first_closing q (rstrip raw) 0 (rstrip raw) = None)
       mid ->
     for_lines 0 (before ++ mid) init = Next s /\
     scan (before ++ mid) = scan before) /\
  (forall (q : char) (raw : pystr),
     ~ In q raw -> first_closing q (rstrip raw) 0 (rstrip raw) = None) /\
  (forall (before mid : list pystr) (raw : pystr) (q : char) (s : state)
          (j : nat),
     for_lines 0 before init = Next s ->
     in_string s = true -> string_char s = [q] ->
     Forall (fun raw => first_closing q (rstrip raw) 0 (rstrip raw) = None)
       mid ->
     first_closing q (rstrip raw) 0 (rstrip raw) = Some j ->
     exists pre suf,
       rstrip raw = pre ++ q :: suf /\ length pre = j /\
       for_chars (rstrip raw) (length (before ++ mid)) 0 pre s = Next s /\
       body (rstrip raw) (length (before ++ mid)) j q s =
         Next (leave_string s) /\
       in_string (leave_string s) = false /\
       stack (leave_string s) = stack s /\
       forall after,
         scan (before ++ mid ++ raw :: after) =
           finish (resume (rstrip raw) (length (before ++ mid)) (S j) suf
                     after (leave_string s))) /\
  (forall (before : list pystr) (pre : pystr) (q : char) (s : state),
     reaches before pre q s ->
     in_string s = true -> string_char s = [q] ->
     pre = [] \/ (exists pre' x, pre = pre' ++ [x] /\ x <> BACKSLASH) ->
     forall (raw suf : pystr) (after : list pystr),
       rstrip raw = pre ++ q :: suf ->
       body (pre ++ q :: suf) (length before) (length pre) q s =
         Next (leave_string s) /\
       in_string (leave_string s) = false /\
       stack (leave_string s) = stack s /\
       scan (before ++ raw :: after) =
         finish (resume (pre ++ q :: suf) (length before) (S (length pre))
                   suf after (leave_string s))) /\
  scan [[DQUOTE; LPAREN]; [RPAREN]] = printed Balanced /\
  scan [[DQUOTE; LPAREN; NEWLINE]; [RPAREN; NEWLINE]] = printed Balanced /\
  scan [[SQUOTE; LPAREN]; [RPAREN]] = printed Balanced /\
  scan [[DQUOTE; LPAREN]; [BACKSLASH; DQUOTE; RPAREN; LBRACE]] =
    printed Balanced /\
  scan [[DQUOTE; LPAREN]; [RPAREN; SLASH; SLASH; DQUOTE]; [RBRACKET]] =
    printed Balanced /\
  scan [[DQUOTE; LPAREN]; [RPAREN; DQUOTE; 32; LPAREN]] =
    printed (UnclosedOpeners LPAREN 2 4 1) /\
  scan [[DQUOTE; LPAREN]; [RPAREN; DQUOTE; RPAREN]] =
    printed (UnmatchedCloser RPAREN 2 3).
Proof.
  assert (forall (before mid : list pystr) (q : char) (s : state),
     for_lines 0 before init = Next s ->
     in_string s = true -> string_char s = [q] ->
     Forall (fun raw => first_closing q (rstrip raw) 0 (rstrip raw) = None)
       mid ->
     for_lines 0 (before ++ mid) init = Next s) as Hstay.
  { intros before mid q s Hb Hs Hq Hall.
    rewrite for_lines_app, Hb. apply (for_lines_no_closing q); auto.
    apply (for_lines_wf before 0 init); auto using wf_init. }
  split; [|split; [|split; [|split; [|repeat split; reflexivity]]]].
  - intros before mid q s Hb Hs Hq Hall.
    pose proof (Hstay before mid q s Hb Hs Hq Hall) as H.
    split; [assumption|]. unfold scan. now rewrite H, Hb.
  - intros q raw Hnin. apply first_closing_absent.
    intros Hin. apply Hnin. now apply rstrip_In.
  - intros before mid raw q s j Hb Hs Hq Hall Hj.
    assert (wf s) as Hwf
      by (apply (for_lines_wf before 0 init); auto using wf_init).
    destruct (for_chars_closing (rstrip raw) (length (before ++ mid)) q s
                (rstrip raw) Hwf Hs Hq 0 j Hj)
      as [pre [suf [Hraw [Hlen [Hpre Hbody]]]]].
    simpl in Hlen. exists pre, suf.
    split; [assumption|]. split; [now symmetry|].
    split; [assumption|]. split; [assumption|].
    split; [reflexivity|]. split; [reflexivity|].
    intros after.
    assert (for_chars (rstrip raw) (length (before ++ mid)) 0 (rstrip raw) s =
            for_chars (rstrip raw) (length (before ++ mid)) (S j) suf
              (leave_string s)) as Hline.
    { rewrite Hraw at 2. rewrite for_chars_app, Hpre.
      cbn [for_chars]. simpl Nat.add. rewrite <- Hlen, Hbody. reflexivity. }
    unfold scan. rewrite app_assoc, for_lines_app.
    rewrite (Hstay before mid q s Hb Hs Hq Hall).
    cbn [for_lines]. unfold for_line, resume. simpl Nat.add.
    now rewrite Hline.
  - intros before pre q s Hr Hs Hq Hpre raw suf after Hraw.
    assert (body (pre ++ q :: suf) (length before) (length pre) q s =
            Next (leave_string s)) as Hb.
    { rewrite body_matching_quote; auto; [|apply (reaches_wf _ _ _ _ Hr)].
      destruct Hpre as [-> | [pre' [x [-> Hx]]]]; [reflexivity|].
      rewrite length_app. simpl.
      replace (length pre' + 1 - 1)%nat with (length pre') by lia.
      rewrite <- app_assoc. simpl. rewrite peek_app_here.
      apply N.eqb_neq in Hx. rewrite Hx, andb_false_r. reflexivity. }
    split; [assumption|]. split; [reflexivity|]. split; [reflexivity|].
    unfold scan. rewrite (for_lines_at before after raw pre suf q s Hr Hraw).
    now rewrite Hb.
Qed.

Lemma C6_string_across_lines_witness :
  for_lines 0 [str "{ '"] init =
    Next {| stack := [(LBRACE, 1, 1)]%nat; in_string := true;
            string_char := [SQUOTE]; in_comment := false |} /\
  Forall (fun raw => first_closing SQUOTE (rstrip raw) 0 (rstrip raw) = None)
    [str "} )"; [97; BACKSLASH; SQUOTE; RBRACKET]; str ") // '";
     DQUOTE :: str " ]"] /\
  scan ([str "{ '"] ++
        [str "} )"; [97; BACKSLASH; SQUOTE; RBRACKET]; str ") // '";
         DQUOTE :: str " ]"]) = scan [str "{ '"].
Proof.
  assert (Forall
            (fun raw => first_closing SQUOTE (rstrip raw) 0 (rstrip raw) = None)
            [str "} )"; [97; BACKSLASH; SQUOTE; RBRACKET]; str ") // '";
             DQUOTE :: str " ]"]) as Hall
    by (repeat constructor).
  split; [reflexivity|]. split; [exact Hall|].
  apply (proj1 C6_string_across_lines [str "{ '"]
           [str "} )"; [97; BACKSLASH; SQUOTE; RBRACKET]; str ") // '";
            DQUOTE :: str " ]"] SQUOTE _ eq_refl eq_refl eq_refl Hall).
Defined.

(** C7. Inside a string opened by the quote [q], when the scan gets to a
    [q] that comes right after a backslash on the same line, the state is
    left as it is: the scan stays in the string.  Nothing is asked of the
    characters before that backslash, so this holds as well when the
    backslash itself comes after a backslash.  When the scan gets to a
    [q] that is the first character of its line, the string ends,
    whatever the line before ended with.  On the line made of a double
    quote, two backslashes, a double quote, a space and an opening
    parenthesis, the second quote does not end the string, the
    parenthesis is skipped and the input is balanced. *)
Theorem C7_escaped_quote :
  (forall (before : list pystr) (pre' : pystr) (q : char) (s : state),
     reaches before (pre' ++ [BACKSLASH]) q s ->
     in_string s = true -> string_char s = [q] ->
     forall (raw suf : pystr) (after : list pystr),
       rstrip raw = (pre' ++ [BACKSLASH]) ++ q :: suf ->
       body ((pre' ++ [BACKSLASH]) ++ q :: suf) (length before)
         (length (pre' ++ [BACKSLASH])) q s = Next s /\
       scan (before ++ raw :: after) =
         finish (resume ((pre' ++ [BACKSLASH]) ++ q :: suf) (length before)
                   (S (length (pre' ++ [BACKSLASH]))) suf after s)) /\
  (forall (before : list pystr) (q : char) (s : state),
     reaches before [] q s ->
     in_string s = true -> string_char s = [q] ->
     forall (raw suf : pystr) (after : list pystr),
       rstrip raw = q :: suf ->
       body (q :: suf) (length before) 0 q s = Next (leave_string s) /\
       in_string (leave_string s) = false /\
       scan (before ++ raw :: after) =
         finish (resume (q :: suf) (length before) 1 suf after
                   (leave_string s))) /\
  reaches [] [DQUOTE; BACKSLASH; BACKSLASH] DQUOTE
    {| stack := []; in_string := true; string_char := [DQUOTE];
       in_comment := false |} /\
  for_lines 0 [[DQUOTE; BACKSLASH; BACKSLASH; DQUOTE]] init =
    Next {| stack := []; in_string := true; string_char := [DQUOTE];
            in_comment := false |} /\
  scan [[DQUOTE; BACKSLASH; BACKSLASH; DQUOTE] ++ str " ("] =
    printed Balanced /\
  scan [[DQUOTE; BACKSLASH]; DQUOTE :: str " ("] =
    printed (UnclosedOpeners LPAREN 2 3 1).
Proof.
  split; [|split; [|split; [eexists; split; reflexivity
                           |repeat split; reflexivity]]].
  - intros before pre' q s Hr Hs Hq raw suf after Hraw.
    assert (body ((pre' ++ [BACKSLASH]) ++ q :: suf) (length before)
              (length (pre' ++ [BACKSLASH])) q s = Next s) as Hb.
    { rewrite body_matching_quote; auto; [|apply (reaches_wf _ _ _ _ Hr)].
      rewrite length_app. simpl.
      replace (length pre' + 1 - 1)%nat with (length pre') by lia.
      rewrite <- app_assoc. simpl. rewrite peek_app_here.
      replace (0 <? length pre' + 1)%nat with true
        by (symmetry; apply Nat.ltb_lt; lia).
      reflexivity. }
    split; [assumption|].
    unfold scan.
    rewrite (for_lines_at before after raw _ suf q s Hr Hraw).
    now rewrite Hb.
  - intros before q s Hr Hs Hq raw suf after Hraw.
    assert (body (q :: suf) (length before) 0 q s = Next (leave_string s))
      as Hb
      by (rewrite body_matching_quote; auto; apply (reaches_wf _ _ _ _ Hr)).
    split; [assumption|]. split; [reflexivity|].
    unfold scan.
    rewrite (for_lines_at before after raw [] suf q s Hr Hraw).
    simpl. now rewrite Hb.
Qed.

Lemma C7_escaped_quote_witness :
  reaches [str "("] ([SQUOTE; BACKSLASH] ++ [BACKSLASH]) SQUOTE
    {| stack := [(LPAREN, 1, 1)]%nat; in_string := true;
       string_char := [SQUOTE]; in_comment := false |} /\
  scan ([str "("] ++ ([SQUOTE; BACKSLASH; BACKSLASH; SQUOTE] ++ str " )")
          :: [str "]"]) =
    printed (UnclosedOpeners LPAREN 1 1 1).
Proof.
  assert (reaches [str "("] ([SQUOTE; BACKSLASH] ++ [BACKSLASH]) SQUOTE
            {| stack := [(LPAREN, 1, 1)]%nat; in_string := true;
               string_char := [SQUOTE]; in_comment := false |}) as Hr
    by (eexists; split; reflexivity).
  split; [exact Hr|].
  refine (eq_trans
            (proj2 (proj1 C7_escaped_quote [str "("] [SQUOTE; BACKSLASH]
                      SQUOTE _ Hr eq_refl eq_refl
                      ([SQUOTE; BACKSLASH; BACKSLASH; SQUOTE] ++ str " )")
                      (str " )") [str "]"] eq_refl)) _).
  reflexivity.
Defined.

(** ** The stack and the delimiters outside strings and comments *)

Lemma opened_count_app (a b : pystr) :
  opened_count (a ++ b) = (opened_count a + opened_count b)%nat.
Proof. unfold opened_count. now rewrite filter_app, length_app. Qed.

Lemma closed_count_app (a b : pystr) :
  closed_count (a ++ b) = (closed_count a + closed_count b)%nat.
Proof. unfold closed_count. now rewrite filter_app, length_app. Qed.

Lemma balance_refl (s : state) : balance s s [].
Proof. reflexivity. Qed.

Lemma balance_trans (s1 s2 s3 : state) (vs ws : pystr) :
  balance s1 s2 vs -> balance s2 s3 ws -> balance s1 s3 (vs ++ ws).
Proof.
  unfold balance. rewrite opened_count_app, closed_count_app. lia.
Qed.

Lemma context_of_set_stack (s : state) (st : list entry) :
  context_of (set_stack s st) = context_of s.
Proof. reflexivity. Qed.

(** A step of the scan agrees with the reading of the specification: same
    comment starts, same context after the character, and a push or a
    pop exactly at the openers and closers outside string context. *)
Lemma body_classify (line : pystr) (i j : nat) (c : char) (s : state) :
  wf s ->
  match body line i j c s with
  | Next s' =>
    exists v,
      classify line j c (context_of s) = Some (v, context_of s') /\
      balance s s' (if v then [c] else [])
  | Break s' => classify line j c (context_of s) = None /\ s' = s
  | _ => True
  end.
Proof.
  intros Hwf. rewrite body_eq, (wf_comment s Hwf). unfold classify.
  destruct ((c =? SLASH) && peek line (j + 1) SLASH); [now split|].
  assert (in_string s = true ->
          exists q, string_char s = [q] /\ context_of s = InString q) as Hin.
  { intros Hs. destruct (wf_string s Hwf Hs) as [q [Hq _]]. exists q.
    split; [assumption|]. unfold context_of. now rewrite Hs, Hq. }
  assert (in_string s = false -> context_of s = Normal) as Hout
    by (unfold context_of; now intros ->).
  destruct (in_string s) eqn:Hs.
  - (* inside a string *)
    destruct (Hin eq_refl) as [q [Hq Hctx]]. rewrite Hctx, Hq.
    simpl. rewrite pystr_eqb_single.
    destruct (is_quote c); [|exists false; now rewrite Hctx].
    destruct (c =? q); [|exists false; now rewrite Hctx].
    destruct ((0 <? j)%nat && peek line (j - 1) BACKSLASH);
      exists false; [now rewrite Hctx | now split].
  - (* outside *)
    rewrite (Hout eq_refl). cbn [negb].
    destruct (is_quote c); [exists false; now split|].
    destruct (is_opener c) eqn:Ho.
    + exists true.
      split; [now rewrite context_of_set_stack, (Hout eq_refl)|].
      unfold balance, opened_count, closed_count. simpl. rewrite Ho.
      destruct (is_closer c) eqn:Hcl;
        [destruct (closer_tests c Hcl) as [_ [_ Hx]]; congruence|].
      simpl. rewrite length_app. simpl. lia.
    + destruct (is_closer c) eqn:Hcl.
      * destruct (stack s) as [|e0 st0] eqn:Hst; [exact I|].
        destruct (pop (e0 :: st0)) as [[st' [[o l] k]]|] eqn:Hp; [|exact I].
        destruct (getitem delims o) as [e|]; [|exact I].
        destruct (negb (c =? e)); [exact I|].
        exists true.
        split; [now rewrite context_of_set_stack, (Hout eq_refl)|].
        apply pop_Some in Hp.
        unfold balance, opened_count, closed_count. simpl.
        rewrite Ho, Hcl, Hst, Hp. simpl. rewrite length_app. simpl. lia.
      * exists true. split; [now rewrite (Hout eq_refl)|].
        unfold balance, opened_count, closed_count. simpl.
        now rewrite Ho, Hcl.
Qed.

Lemma for_chars_visible (line : pystr) (i : nat) (cs : pystr) :
  forall (j : nat) (s s' : state),
  wf s ->
  for_chars line i j cs s = Next s' \/ for_chars line i j cs s = Break s' ->
  snd (visible_chars line j cs (context_of s)) = context_of s' /\
  balance s s' (fst (visible_chars line j cs (context_of s))).
Proof.
  induction cs as [|c cs IH]; intros j s s' Hwf H; simpl in H |- *.
  - destruct H as [[= <-] | [=]]. split; [reflexivity | apply balance_refl].
  - pose proof (body_classify line i j c s Hwf) as Hb.
    destruct (body line i j c s) as [s1 | s1 | out | e] eqn:Hbody.
    + destruct Hb as [v [Hcl Hbal]]. rewrite Hcl.
      destruct (IH (S j) s1 s') as [Hctx Hbal']; [|assumption|].
      { apply (body_wf line i j c s); auto. }
      destruct (visible_chars line (S j) cs (context_of s1)) as [vs ctx].
      simpl in *. split; [assumption|].
      apply (balance_trans s s1 s' (if v then [c] else []) vs) in Hbal';
        [|assumption].
      now destruct v.
    + destruct Hb as [Hcl ->]. rewrite Hcl.
      destruct H as [[=] | [= <-]]. split; [reflexivity | apply balance_refl].
    + destruct H as [[=] | [=]].
    + destruct H as [[=] | [=]].
Qed.

Lemma for_lines_visible (lines : list pystr) :
  forall (i : nat) (s s' : state),
  wf s ->
  for_lines i lines s = Next s' ->
  snd (visible_lines lines (context_of s)) = context_of s' /\
  balance s s' (fst (visible_lines lines (context_of s))).
Proof.
  induction lines as [|raw lines IH]; intros i s s' Hwf H; simpl in H |- *.
  - injection H as <-. split; [reflexivity | apply balance_refl].
  - unfold for_line in H.
    assert (exists s1,
              (for_chars (rstrip raw) i 0 (rstrip raw) s = Next s1 \/
               for_chars (rstrip raw) i 0 (rstrip raw) s = Break s1) /\
              for_lines (S i) lines s1 = Next s') as [s1 [H1 H2]].
    { destruct (for_chars (rstrip raw) i 0 (rstrip raw) s) as [s1|s1|out|e];
        try discriminate; exists s1; auto. }
    destruct (for_chars_visible (rstrip raw) i (rstrip raw) 0 s s1 Hwf H1)
      as [Hctx Hbal].
    destruct (IH (S i) s1 s') as [Hctx' Hbal']; [|assumption|].
    { apply (for_chars_wf (rstrip raw) i (rstrip raw) 0 s); auto. }
    destruct (visible_chars (rstrip raw) 0 (rstrip raw) (context_of s))
      as [vs ctx].
    simpl in Hctx, Hbal. subst ctx.
    destruct (visible_lines lines (context_of s1)) as [ws ctx'].
    simpl in *. split; [assumption|].
    apply (balance_trans s s1 s'); assumption.
Qed.

(** Every call on a file that could be read prints one of the four
    outcomes of the specification and returns: neither [stack.pop()] nor
    [delims[start_char]] nor [stack[-1]] ever fails. *)
Lemma scan_printed (lines : list pystr) : exists r, scan lines = printed r.
Proof.
  unfold scan.
  destruct (for_lines_flow lines 0 init wf_init) as [[s Hs] | He].
  - rewrite Hs. simpl.
    destruct (snoc_cases _ (stack s)) as [E | [st [[[c l] k] E]]].
    + rewrite (report_empty s E). now eexists.
    + rewrite (report_snoc s st c l k E). now eexists.
  - destruct He as [[x [l [k H]]] | [x [l [k [e [ol [ok H]]]]]]];
      rewrite H; now eexists.
Qed.

(** C8. The stack is empty when the scan starts.  [stack.pop()] is only
    run on a stack that is not empty: no call ends on an exception, and a
    step of the scan at a closing symbol with an empty stack returns
    without popping.  Wherever the scan gets to, the size of the stack
    plus the number of closing symbols met so far outside string and
    comment context is the number of opening symbols met so far outside
    string and comment context: the size is the number of openers not
    yet closed; the same holds at the end of the lines. *)
Theorem C8_stack_discipline :
  stack init = [] /\
  (forall (lines : list pystr) (e : exn), scan lines <> Raise e) /\
  (forall (line : pystr) (i j : nat) (c : char) (s : state),
     wf s -> in_string s = false -> is_closer c = true -> stack s = [] ->
     body line i j c s = Return [msg_unmatched c (i + 1) (j + 1)]) /\
  (forall (before : list pystr) (pre : pystr) (c : char) (s : state),
     reaches before pre c s ->
     (length (stack s) + closed_count (seen before pre c) =
      opened_count (seen before pre c))%nat) /\
  (forall (lines : list pystr) (s : state),
     for_lines 0 lines init = Next s ->
     (length (stack s) + closed_count (fst (visible_lines lines Normal)) =
      opened_count (fst (visible_lines lines Normal)))%nat).
Proof.
  split; [reflexivity|]. split; [|split; [|split]].
  - intros lines e H. destruct (scan_printed lines) as [r Hr].
    rewrite Hr in H. destruct r; discriminate H.
  - intros line i j c s Hwf Hs Hcl Hst.
    rewrite body_closer, Hst; auto. apply (wf_comment s Hwf).
  - intros before pre c s [s0 [H0 H1]]. unfold seen.
    destruct (for_lines_visible before 0 init s0 wf_init H0) as [Hctx Hbal].
    change (context_of init) with Normal in Hctx, Hbal.
    destruct (visible_lines before Normal) as [vs ctx]. simpl in Hctx, Hbal.
    subst ctx.
    destruct (for_chars_visible (pre ++ [c]) (length before) pre 0 s0 s)
      as [_ Hbal']; auto.
    { apply (for_lines_wf before 0 init); auto using wf_init. }
    pose proof (balance_trans _ _ _ _ _ Hbal Hbal') as Hb.
    unfold balance in Hb. simpl in Hb. exact Hb.
  - intros lines s H.
    destruct (for_lines_visible lines 0 init s wf_init H) as [_ Hbal].
    exact Hbal.
Qed.

Lemma C8_stack_discipline_witness :
  reaches [str "{ '(' // )"] (str "[ (a) ") LPAREN
    {| stack := [(LBRACE, 1, 1); (LBRACKET, 2, 1)]%nat; in_string := false;
       string_char := [SQUOTE]; in_comment := false |} /\
  seen [str "{ '(' // )"] (str "[ (a) ") LPAREN = str "{  [ (a) " /\
  (2 + closed_count (seen [str "{ '(' // )"] (str "[ (a) ") LPAREN) =
   opened_count (seen [str "{ '(' // )"] (str "[ (a) ") LPAREN))%nat.
Proof.
  assert (reaches [str "{ '(' // )"] (str "[ (a) ") LPAREN
            {| stack := [(LBRACE, 1, 1); (LBRACKET, 2, 1)]%nat;
               in_string := false; string_char := [SQUOTE];
               in_comment := false |}) as Hr
    by (eexists; split; reflexivity).
  split; [exact Hr|]. split; [reflexivity|].
  exact (proj1 (proj2 (proj2 (proj2 C8_stack_discipline))) _ _ _ _ Hr).
Defined.

(** ** The file that is not there *)

(** No line the scan prints starts like the message of a missing file. *)
Lemma printed_not_missing (r : Result) (out : list pystr) (filepath : pystr) :
  printed r = Return out -> ~ In (msg_not_found filepath) out.
Proof.
  intros H Hin. destruct r; injection H as <-; simpl in Hin;
    repeat (destruct Hin as [Hin | Hin]; [discriminate Hin|]);
    exact Hin.
Qed.

(** C9. When the file is not found, the call prints the one line
    [File not found: <path>] and returns.  The lines of the file are
    never asked for, so nothing is scanned: the output is the same in
    every file system where the path is not found, and the line printed
    is none of the lines a scan prints (no diagnostic of a delimiter, no
    message of balance). *)
Theorem C9_file_not_found :
  (forall (fs : pystr -> opened) (filepath : pystr),
     fs filepath = Fails FileNotFoundError ->
     check_braces fs filepath = Return [str "File not found: " ++ filepath] /\
     forall (lines : list pystr) (out : list pystr),
       scan lines = Return out ->
       ~ In (str "File not found: " ++ filepath) out) /\
  check_braces (fun _ => Fails FileNotFoundError) (str "src/vnc/rfb.rs") =
    Return [str "File not found: src/vnc/rfb.rs"].
Proof.
  split; [|reflexivity].
  intros fs filepath Hfs. split.
  - unfold check_braces. now rewrite Hfs.
  - intros lines out Hscan. destruct (scan_printed lines) as [r Hr].
    rewrite Hr in Hscan. apply (printed_not_missing r out filepath Hscan).
Qed.

Lemma C9_file_not_found_witness :
  check_braces
    (fun p => if pystr_eqb p (str "a.rs") then Lines [str "("]
              else Fails FileNotFoundError)
    (str "b.rs") = Return [str "File not found: b.rs"].
Proof.
  apply (proj1 C9_file_not_found
           (fun p => if pystr_eqb p (str "a.rs") then Lines [str "("]
                     else Fails FileNotFoundError)
           (str "b.rs") eq_refl).
Defined.

(** ** End of input inside a string *)

Lemma report_stack (s1 s2 : state) : stack s1 = stack s2 -> report s1 = report s2.
Proof. unfold report. now intros ->. Qed.

(** C10. When the loops end while the scan is still inside a string
    literal, nothing is printed about the string: the call prints what
    it prints for the same stack outside a string, that is the balanced
    message if the stack is empty and the unclosed message for the top of
    the stack otherwise.  More generally two inputs whose loops end with
    equal stacks print the same.  The line made of a double quote and
    [abc] is balanced; with an opening parenthesis in front, the
    parenthesis is reported unclosed at line 1, column 1, total 1. *)
Theorem C10_unterminated_string :
  (forall (lines : list pystr) (s : state),
     for_lines 0 lines init = Next s ->
     in_string s = true ->
     scan lines = report (leave_string s) /\
     (stack s = [] -> scan lines = printed Balanced) /\
     (forall st c l k,
        stack s = st ++ [(c, l, k)] ->
        scan lines = printed (UnclosedOpeners c l k (length (stack s))))) /\
  (forall (lines1 lines2 : list pystr) (s1 s2 : state),
     for_lines 0 lines1 init = Next s1 ->
     for_lines 0 lines2 init = Next s2 ->
     stack s1 = stack s2 ->
     scan lines1 = scan lines2) /\
  for_lines 0 [DQUOTE :: str "abc"] init =
    Next {| stack := []; in_string := true; string_char := [DQUOTE];
            in_comment := false |} /\
  scan [DQUOTE :: str "abc"] = printed Balanced /\
  scan [LPAREN :: DQUOTE :: str "abc"] = printed (UnclosedOpeners LPAREN 1 1 1) /\
  scan [LPAREN :: DQUOTE :: str "abc"] =
    Return [str "Error: Unclosed '(' at line 1, column 1";
            str "Total unclosed delimiters: 1"].
Proof.
  split; [|split; [|repeat split; reflexivity]].
  - intros lines s Hs _. unfold scan. rewrite Hs. simpl.
    split; [now apply report_stack|].
    split; [apply report_empty | intros st c l k; apply report_snoc].
  - intros lines1 lines2 s1 s2 H1 H2 Hst. unfold scan. rewrite H1, H2.
    simpl. now apply report_stack.
Qed.

Lemma C10_unterminated_string_witness :
  for_lines 0 [str "f(x, [ 'abc"; str "])"] init =
    Next {| stack := [(LPAREN, 1, 2); (LBRACKET, 1, 6)]%nat;
            in_string := true; string_char := [SQUOTE];
            in_comment := false |} /\
  scan [str "f(x, [ 'abc"; str "])"] = printed (UnclosedOpeners LBRACKET 1 6 2).
Proof.
  split; [reflexivity|].
  apply (proj2 (proj2 (proj1 C10_unterminated_string
                         [str "f(x, [ 'abc"; str "])"] _ eq_refl eq_refl))
           [(LPAREN, 1, 2)]%nat LBRACKET 1%nat 6%nat eq_refl).
Defined.

(** * Further properties of the scan *)

(** ** Trailing whitespace *)

Lemma lstrip_split (l : pystr) :
  exists ws, forallb isspace ws = true /\ l = ws ++ lstrip l.
Proof.
  induction l as [|c l [ws [Hws Hl]]]; simpl.
  - now exists [].
  - destruct (isspace c) eqn:Hc.
    + exists (c :: ws). simpl. rewrite Hc, Hws. split; [reflexivity|].
      now rewrite <- Hl.
    + now exists [].
Qed.

Lemma forallb_rev (A : Type) (f : A -> bool) (l : list A) :
  forallb f (rev l) = forallb f l.
Proof.
  induction l as [|x l IH]; simpl; [reflexivity|].
  rewrite forallb_app, IH. simpl. rewrite andb_true_r. apply andb_comm.
Qed.

(** A line is what [rstrip] keeps of it, then whitespace. *)
Lemma rstrip_split (l : pystr) : padded (rstrip l) l.
Proof.
  unfold padded, rstrip.
  destruct (lstrip_split (rev l)) as [ws [Hws Hl]].
  exists (rev ws). rewrite forallb_rev. split; [assumption|].
  rewrite <- rev_app_distr, <- Hl. now rewrite rev_involutive.
Qed.

Lemma lstrip_spaces (ws l : pystr) :
  forallb isspace ws = true -> lstrip (ws ++ l) = lstrip l.
Proof.
  induction ws as [|c ws IH]; simpl; [reflexivity|].
  intros H. apply andb_true_iff in H. destruct H as [Hc Hws].
  rewrite Hc. now apply IH.
Qed.

Lemma rstrip_padded (l l' : pystr) : padded l l' -> rstrip l' = rstrip l.
Proof.
  intros [ws [Hws ->]]. unfold rstrip. rewrite rev_app_distr.
  rewrite lstrip_spaces; [reflexivity|]. now rewrite forallb_rev.
Qed.

(** Whitespace is none of the characters the scan looks for. *)
Lemma isspace_tests (c : char) :
  isspace c = true ->
  (c =? SLASH) = false /\ (c =? BACKSLASH) = false /\ is_quote c = false /\
  is_opener c = false /\ is_closer c = false.
Proof.
  intros H.
  assert (forall x, isspace x = false -> (c =? x) = false) as Hne.
  { intros x Hx. apply N.eqb_neq. intros ->. congruence. }
  unfold is_quote, is_opener, is_closer, char_in. simpl.
  rewrite !Hne by reflexivity. repeat split; reflexivity.
Qed.

Lemma body_space (line : pystr) (i j : nat) (c : char) (s : state) :
  isspace c = true -> body line i j c s = Next s.
Proof.
  intros H. destruct (isspace_tests c H) as [H1 [_ [H2 [H3 H4]]]].
  rewrite body_eq, H1, H2, H3, H4. simpl.
  destruct (in_comment s); [reflexivity|]. now destruct (in_string s).
Qed.

Lemma for_chars_spaces (line : pystr) (i : nat) (ws : pystr) :
  forallb isspace ws = true ->
  forall (j : nat) (s : state), for_chars line i j ws s = Next s.
Proof.
  induction ws as [|c ws IH]; simpl; intros H j s; [reflexivity|].
  apply andb_true_iff in H. destruct H as [Hc Hws].
  rewrite (body_space line i j c s Hc). now apply IH.
Qed.

(** The body only asks whether the next character is a slash and the
    previous one a backslash. *)
Lemma body_peek (l1 l2 : pystr) (i j : nat) (c : char) (s : state) :
  peek l1 (j + 1) SLASH = peek l2 (j + 1) SLASH ->
  peek l1 (j - 1) BACKSLASH = peek l2 (j - 1) BACKSLASH ->
  body l1 i j c s = body l2 i j c s.
Proof. intros H1 H2. rewrite !body_eq, H1, H2. reflexivity. Qed.

Lemma for_chars_peek (l1 l2 : pystr) (i : nat) (cs : pystr) :
  forall (j : nat) (s : state),
  (forall k, (k <= j + length cs)%nat ->
             peek l1 k SLASH = peek l2 k SLASH /\
             peek l1 k BACKSLASH = peek l2 k BACKSLASH) ->
  for_chars l1 i j cs s = for_chars l2 i j cs s.
Proof.
  induction cs as [|c cs IH]; intros j s H; simpl; [reflexivity|].
  rewrite (body_peek l1 l2).
  - destruct (body l2 i j c s); try reflexivity.
    apply IH. intros k Hk. apply H. simpl. lia.
  - apply H. simpl. lia.
  - apply H. simpl. lia.
Qed.

Lemma peek_padded (l ws : pystr) (k : nat) (x : char) :
  forallb isspace ws = true -> isspace x = false ->
  (k <= length l)%nat ->
  peek (l ++ ws) k x = peek l k x.
Proof.
  intros Hws Hx Hk. unfold peek.
  destruct (Nat.eq_dec k (length l)) as [-> | Hne].
  - rewrite nth_error_app2 by lia. rewrite Nat.sub_diag.
    rewrite (proj2 (nth_error_None l (length l))) by lia.
    destruct ws as [|w ws]; [reflexivity|]. simpl in *.
    apply andb_true_iff in Hws. destruct Hws as [Hw _].
    apply N.eqb_neq. intros ->. congruence.
  - now rewrite nth_error_app1 by lia.
Qed.

(** The visit of a line gives the same with and without [rstrip]. *)
Lemma for_line_raw (i : nat) (raw : pystr) (s : state) :
  for_line i raw s = for_chars raw i 0 raw s.
Proof.
  unfold for_line. destruct (rstrip_split raw) as [ws [Hws Hraw]].
  rewrite Hraw at 3 4. rewrite for_chars_app.
  rewrite <- (for_chars_peek (rstrip raw) (rstrip raw ++ ws)).
  - destruct (for_chars (rstrip raw) i 0 (rstrip raw) s); try reflexivity.
    symmetry. now apply for_chars_spaces.
  - intros k Hk. simpl in Hk.
    split; symmetry; apply peek_padded; auto.
Qed.

Lemma for_lines_padded (lines lines' : list pystr) :
  Forall2 padded lines lines' ->
  forall (i : nat) (s : state), for_lines i lines' s = for_lines i lines s.
Proof.
  induction 1 as [|l l' lines lines' Hl _ IH]; intros i s; simpl.
  - reflexivity.
  - unfold for_line. rewrite (rstrip_padded l l' Hl).
    destruct (for_chars (rstrip l) i 0 (rstrip l) s); auto.
Qed.

(** X1. Whitespace at the end of a line has no part in the scan: the
    visit of a line ends the same way, in the same state or with the same
    message, when the line is taken as read and not stripped; and two
    files whose lines differ only by whitespace added at the end of
    lines (the newline [readlines] keeps, spaces, tabs) print the same,
    line and column numbers included. *)
Theorem X1_trailing_whitespace :
  (forall (i : nat) (raw : pystr) (s : state),
     for_line i raw s = for_chars raw i 0 raw s) /\
  (forall lines lines' : list pystr,
     Forall2 padded lines lines' -> scan lines' = scan lines).
Proof.
  split; [exact for_line_raw|].
  intros lines lines' H. unfold scan. now rewrite (for_lines_padded lines lines' H).
Qed.

Lemma X1_trailing_whitespace_witness :
  Forall2 padded [str "f(x"; str "]"]
    [str "f(x  " ++ [NEWLINE]; str "]" ++ [9; NEWLINE]] /\
  scan [str "f(x  " ++ [NEWLINE]; str "]" ++ [9; NEWLINE]] =
    printed (MismatchedCloser RBRACKET 2 1 RPAREN 1 2).
Proof.
  assert (Forall2 padded [str "f(x"; str "]"]
            [str "f(x  " ++ [NEWLINE]; str "]" ++ [9; NEWLINE]]) as H.
  { constructor; [exists (str "  " ++ [NEWLINE]); split; reflexivity|].
    constructor; [exists [9; NEWLINE]; split; reflexivity|]. constructor. }
  split; [exact H|].
  refine (eq_trans (proj2 X1_trailing_whitespace _ _ H) _). reflexivity.
Defined.

(** ** The first error ends the scan *)

Lemma for_lines_return_app (before after : list pystr) (i : nat) (s : state)
    (out : list pystr) :
  for_lines i before s = Return out ->
  for_lines i (before ++ after) s = Return out.
Proof. intros H. now rewrite for_lines_app, H. Qed.

(** The report after the loops is neither of the two early messages. *)
Lemma report_not_early (s : state) : ~ early (report s).
Proof.
  intros He.
  destruct (snoc_cases _ (stack s)) as [E | [st [[[c l] k] E]]].
  - rewrite (report_empty s E) in He.
    destruct He as [[x [a [b H]]] | [x [a [b [e [ol [ok H]]]]]]];
      discriminate H.
  - rewrite (report_snoc s st c l k E) in He.
    destruct He as [[x [a [b H]]] | [x [a [b [e [ol [ok H]]]]]]];
      discriminate H.
Qed.

(** X2. Once a file has made the call return at an unmatched or
    mismatched closer, no line added after it changes what is printed:
    the first error is the only one reported. *)
Theorem X2_first_error_wins :
  forall (before after : list pystr),
    early (scan before) -> scan (before ++ after) = scan before.
Proof.
  intros before after He. unfold scan in *.
  destruct (for_lines 0 before init) as [s | s | out | e] eqn:Hb.
  - exfalso. apply (report_not_early s He).
  - exfalso. apply (for_lines_not_break before 0 init s Hb).
  - now rewrite (for_lines_return_app before after 0 init out Hb).
  - now rewrite for_lines_app, Hb.
Qed.

Lemma X2_first_error_wins_witness :
  early (scan [str "a)"; str "("]) /\
  scan ([str "a)"; str "("] ++ [str "]]"; str "{"]) = scan [str "a)"; str "("].
Proof.
  assert (early (scan [str "a)"; str "("])) as He
    by (left; exists RPAREN, 1%nat, 2%nat; reflexivity).
  split; [exact He|]. apply (X2_first_error_wins _ _ He).
Defined.

(** ** The places the messages name *)

Lemma rstrip_nth (raw : pystr) (j : nat) (c : char) :
  nth_error (rstrip raw) j = Some c -> nth_error raw j = Some c.
Proof.
  intros H. destruct (rstrip_split raw) as [ws [_ Hraw]]. rewrite Hraw.
  rewrite nth_error_app1; [assumption|].
  apply nth_error_Some. congruence.
Qed.

Lemma char_at_succ (lines : list pystr) (i j : nat) :
  char_at lines (i + 1) (j + 1) =
  match nth_error lines i with
  | Some raw => nth_error raw j
  | None => None
  end.
Proof. now rewrite !Nat.add_1_r. Qed.

Lemma placed_stack (lines : list pystr) (i j : nat) (s s' : state) :
  stack s' = stack s -> placed lines i j s -> placed lines i j s'.
Proof. unfold placed. now intros ->. Qed.

Lemma placed_later (lines : list pystr) (i j i' j' : nat) (s : state) :
  (i < i')%nat \/ (i = i' /\ (j <= j')%nat) ->
  placed lines i j s -> placed lines i' j' s.
Proof.
  intros Hle [Hall Hsort]. split; [|assumption].
  eapply Forall_impl; [|exact Hall].
  intros e [Ho [Hat Hb]]. split; [assumption|]. split; [assumption|].
  unfold pos_before in *. lia.
Qed.

Lemma StronglySorted_snoc (A : Type) (R : A -> A -> Prop) (l : list A) (x : A) :
  StronglySorted R l -> Forall (fun y => R y x) l ->
  StronglySorted R (l ++ [x]).
Proof.
  induction 1 as [|a l Hs IH Ha]; intros Hx; simpl.
  - repeat constructor.
  - inversion Hx; subst. constructor; [now apply IH|].
    apply Forall_app. split; [assumption | now repeat constructor].
Qed.

Lemma StronglySorted_snoc_inv (A : Type) (R : A -> A -> Prop) (l : list A)
    (x : A) :
  StronglySorted R (l ++ [x]) ->
  StronglySorted R l /\ Forall (fun y => R y x) l.
Proof.
  induction l as [|a l IH]; simpl; intros H.
  - split; constructor.
  - inversion H as [|? ? Hs Ha]; subst. destruct (IH Hs) as [Hl Hx].
    apply Forall_app in Ha. destruct Ha as [Ha Hax].
    split; constructor; auto. now inversion Hax.
Qed.

Lemma snoc_match (A B : Type) (l : list A) (x : A) (a b : B) :
  match l ++ [x] with [] => a | _ :: _ => b end = b.
Proof. now destruct l. Qed.

(** A step of the scan at a character of the file keeps the stack in
    place, and the message of an early return names places of the file. *)
Lemma body_placed (lines : list pystr) (raw : pystr) (i j : nat) (c : char)
    (s : state) :
  nth_error lines i = Some raw ->
  nth_error (rstrip raw) j = Some c ->
  placed lines i j s ->
  match body (rstrip raw) i j c s with
  | Next s' => placed lines i (S j) s'
  | Break s' => s' = s
  | Return out => exists r, Return out = printed r /\ faithful lines r
  | Raise _ => False
  end.
Proof.
  intros Hraw Hc Hp.
  assert (char_at lines (i + 1) (j + 1) = Some c) as Hat
    by (rewrite char_at_succ, Hraw; now apply rstrip_nth).
  assert (placed lines i (S j) s) as Hp'
    by (apply (placed_later lines i j); auto).
  rewrite body_eq.
  destruct (in_comment s); [assumption|].
  destruct ((c =? SLASH) && peek (rstrip raw) (j + 1) SLASH); [reflexivity|].
  destruct (is_quote c).
  { destruct (negb (in_string s)); [now apply (placed_stack lines i (S j) s)|].
    destruct (pystr_eqb [c] (string_char s)); [|assumption].
    destruct ((0 <? j)%nat && peek (rstrip raw) (j - 1) BACKSLASH);
      [assumption | now apply (placed_stack lines i (S j) s)]. }
  destruct (in_string s); [assumption|].
  destruct (is_opener c) eqn:Ho.
  { (* push *)
    destruct Hp as [Hall Hsort]. split; simpl.
    - apply Forall_app. split; [apply Hp'|].
      constructor; [|constructor]. simpl.
      split; [assumption|]. split; [assumption|]. right. lia.
    - apply StronglySorted_snoc; [assumption|].
      eapply Forall_impl; [|exact Hall].
      intros e [_ [_ Hb]]. exact Hb. }
  destruct (is_closer c) eqn:Hcl; [|assumption].
  destruct (snoc_cases _ (stack s)) as [E | [st [[[o l] k] E]]].
  - (* unmatched *)
    rewrite E. exists (UnmatchedCloser c (i + 1) (j + 1)).
    split; [reflexivity|]. now split.
  - destruct Hp as [Hall Hsort]. rewrite E in Hall, Hsort.
    apply Forall_snoc_inv in Hall. destruct Hall as [Hst [Hoo [Hoat Hob]]].
    simpl in Hoo, Hoat, Hob.
    destruct (getitem_opener o Hoo) as [e [He _]].
    rewrite E, pop_snoc, snoc_match. cbv beta iota. rewrite He.
    destruct (N.eqb_spec c e) as [Hce | Hce]; simpl.
    + (* pop *)
      split; simpl.
      * eapply Forall_impl; [|exact Hst].
        intros x [Hx1 [Hx2 Hx3]]. split; [assumption|].
        split; [assumption|]. unfold pos_before in *. lia.
      * now apply StronglySorted_snoc_inv in Hsort.
    + (* mismatched *)
      exists (MismatchedCloser c (i + 1) (j + 1) e l k).
      split; [reflexivity|]. simpl. repeat split; try assumption.
      now exists o.
Qed.

Lemma for_chars_placed (lines : list pystr) (raw : pystr) (i : nat)
    (cs : pystr) :
  nth_error lines i = Some raw ->
  forall (j : nat) (s : state),
  (forall n c, nth_error cs n = Some c ->
               nth_error (rstrip raw) (j + n) = Some c) ->
  placed lines i j s ->
  match for_chars (rstrip raw) i j cs s with
  | Next s' | Break s' => exists j', placed lines i j' s'
  | Return out => exists r, Return out = printed r /\ faithful lines r
  | Raise _ => False
  end.
Proof.
  intros Hraw. induction cs as [|c cs IH]; intros j s Hcs Hp; simpl.
  - now exists j.
  - assert (nth_error (rstrip raw) j = Some c) as Hc
      by (rewrite <- (Nat.add_0_r j); now apply Hcs).
    pose proof (body_placed lines raw i j c s Hraw Hc Hp) as Hb.
    destruct (body (rstrip raw) i j c s) as [s1 | s1 | out | e].
    + apply IH; [|assumption].
      intros n x Hx. rewrite Nat.add_succ_l, <- Nat.add_succ_r.
      now apply Hcs.
    + subst s1. now exists j.
    + assumption.
    + assumption.
Qed.

Lemma for_lines_placed (lines : list pystr) (rest : list pystr) :
  forall (i : nat) (s : state),
  (forall n raw, nth_error rest n = Some raw ->
                 nth_error lines (i + n) = Some raw) ->
  placed lines i 0 s ->
  match for_lines i rest s with
  | Next s' => exists i' j', placed lines i' j' s'
  | Return out => exists r, Return out = printed r /\ faithful lines r
  | _ => False
  end.
Proof.
  induction rest as [|raw rest IH]; intros i s Hrest Hp; simpl.
  - now exists i, 0%nat.
  - assert (nth_error lines i = Some raw) as Hraw
      by (rewrite <- (Nat.add_0_r i); now apply Hrest).
    unfold for_line.
    pose proof (for_chars_placed lines raw i (rstrip raw) Hraw 0 s
                  (fun n c H => H) Hp) as Hl.
    assert (forall s1 j1, placed lines i j1 s1 ->
              match for_lines (S i) rest s1 with
              | Next s' => exists i' j', placed lines i' j' s'
              | Return out => exists r, Return out = printed r /\ faithful lines r
              | _ => False
              end) as Hnext.
    { intros s1 j1 H1. apply IH.
      - intros n x Hx. rewrite Nat.add_succ_l, <- Nat.add_succ_r.
        now apply Hrest.
      - apply (placed_later lines i j1); auto. }
    destruct (for_chars (rstrip raw) i 0 (rstrip raw) s) as [s1 | s1 | out | e].
    + destruct Hl as [j1 H1]. now apply (Hnext s1 j1).
    + destruct Hl as [j1 H1]. now apply (Hnext s1 j1).
    + assumption.
    + assumption.
Qed.

Lemma placed_init (lines : list pystr) : placed lines 0 0 init.
Proof. split; constructor. Qed.

Lemma for_lines_end_placed (lines : list pystr) (s : state) :
  for_lines 0 lines init = Next s -> exists i j, placed lines i j s.
Proof.
  intros H.
  pose proof (for_lines_placed lines lines 0 init (fun n raw Hn => Hn)
                (placed_init lines)) as Hp.
  now rewrite H in Hp.
Qed.

(** X3. Whatever the file, the call prints one of the four outcomes, and
    the places it names are places of the file: the symbol of an
    unmatched or mismatched closer is a closing symbol and stands at the
    line and column printed; the closer expected in a mismatch is the
    one [delims] gives for an opening symbol that stands at the place
    printed as opened, which comes before the place of the closer and
    differs from the closer found; the symbol of an unclosed opener is
    an opening symbol that stands at the line and column printed, and
    the total is at least 1. *)
Theorem X3_messages_name_real_places :
  forall lines : list pystr,
    exists r, scan lines = printed r /\ faithful lines r.
Proof.
  intros lines. unfold scan.
  pose proof (for_lines_placed lines lines 0 init (fun n raw Hn => Hn)
                (placed_init lines)) as Hp.
  destruct (for_lines 0 lines init) as [s | s | out | e]; try contradiction.
  - destruct Hp as [i [j [Hall _]]]. simpl.
    destruct (snoc_cases _ (stack s)) as [E | [st [[[c l] k] E]]].
    + exists Balanced. split; [now apply report_empty | exact I].
    + exists (UnclosedOpeners c l k (length (stack s))).
      split; [now apply (report_snoc s st)|].
      rewrite E in Hall. apply Forall_snoc_inv in Hall.
      destruct Hall as [_ [Ho [Hat _]]]. simpl in *.
      repeat split; try assumption. rewrite E, length_app. simpl. lia.
  - exact Hp.
Qed.

(** X4. When the loops end with openers left on the stack, every entry
    under the top one holds an opening symbol and the place of the file
    where it stands, and that place comes before the place of the top
    entry: the opener reported as unclosed is the last of the openers
    left open, and the total printed counts it and those before it. *)
Theorem X4_innermost_is_last :
  forall (lines : list pystr) (s : state) (st : list entry) (c : char)
         (l k : nat),
    for_lines 0 lines init = Next s ->
    stack s = st ++ [(c, l, k)] ->
    scan lines = printed (UnclosedOpeners c l k (S (length st))) /\
    Forall (fun e : entry =>
              is_opener (fst (fst e)) = true /\
              char_at lines (snd (fst e)) (snd e) = Some (fst (fst e)) /\
              pos_before (snd (fst e)) (snd e) l k) st.
Proof.
  intros lines s st c l k Hs E. split.
  - unfold scan. rewrite Hs. simpl. rewrite (report_snoc s st c l k E).
    rewrite E, length_app. simpl. now rewrite Nat.add_1_r.
  - destruct (for_lines_end_placed lines s Hs) as [i [j [Hall Hsort]]].
    rewrite E in Hall, Hsort.
    apply Forall_snoc_inv in Hall. destruct Hall as [Hall _].
    apply StronglySorted_snoc_inv in Hsort. destruct Hsort as [_ Hlt].
    apply Forall_forall. intros e He.
    rewrite Forall_forall in Hall, Hlt.
    destruct (Hall e He) as [H1 [H2 _]]. repeat split; try assumption.
    apply (Hlt e He).
Qed.

Lemma X4_innermost_is_last_witness :
  for_lines 0 [str "{ a ("; str ") [ ]"; str " [x"] init =
    Next {| stack := [(LBRACE, 1, 1); (LBRACKET, 3, 2)]%nat;
            in_string := false; string_char := []; in_comment := false |} /\
  scan [str "{ a ("; str ") [ ]"; str " [x"] =
    printed (UnclosedOpeners LBRACKET 3 2 2).
Proof.
  split; [reflexivity|].
  apply (proj1 (X4_innermost_is_last [str "{ a ("; str ") [ ]"; str " [x"] _
                  [(LBRACE, 1, 1)]%nat LBRACKET 3%nat 2%nat eq_refl eq_refl)).
Defined.

(** ** The scan and the matching of the visible delimiters *)

Lemma getitem_cases (o e : char) :
  getitem delims o = Some e ->
  is_opener o = true /\ is_closer o = false /\
  is_opener e = false /\ is_closer e = true.
Proof.
  unfold delims, getitem.
  destruct (N.eqb_spec o LBRACE) as [-> | _]; [intros [= <-]; now repeat split|].
  destruct (N.eqb_spec o LPAREN) as [-> | _]; [intros [= <-]; now repeat split|].
  destruct (N.eqb_spec o LBRACKET) as [-> | _];
    [intros [= <-]; now repeat split | discriminate].
Qed.

Lemma match_delims_app (a b st : pystr) :
  match_delims (a ++ b) st =
  match match_delims a st with
  | Some st' => match_delims b st'
  | None => None
  end.
Proof.
  revert st. induction a as [|c a IH]; intros st; cbn [match_delims app];
    [reflexivity|].
  destruct (is_opener c); [apply IH|].
  destruct (is_closer c); [|apply IH].
  destruct st as [|o st]; [reflexivity|].
  destruct (getitem delims o) as [e|]; [|reflexivity].
  destruct (c =? e); [apply IH | reflexivity].
Qed.

Lemma symbols_push (s : state) (e : entry) :
  symbols (set_stack s (stack s ++ [e])) = fst (fst e) :: symbols s.
Proof. unfold symbols. simpl. now rewrite map_app, rev_app_distr. Qed.

Lemma symbols_snoc (s : state) (st : list entry) (e : entry) :
  stack s = st ++ [e] ->
  symbols s = fst (fst e) :: symbols (set_stack s st).
Proof.
  intros E. unfold symbols. rewrite E. simpl.
  now rewrite map_app, rev_app_distr.
Qed.

Lemma symbols_nil (s : state) : symbols s = [] <-> stack s = [].
Proof.
  unfold symbols. split; intros H.
  - destruct (stack s) as [|e st]; [reflexivity|].
    simpl in H. now destruct (rev (map (fun e0 : entry => fst (fst e0)) st)).
  - now rewrite H.
Qed.

(** A step of the scan does of the stack what the matching does of its
    symbols at a character outside string and comment context, and
    nothing at any other character; it returns early exactly where the
    matching fails. *)
Lemma body_match (line : pystr) (i j : nat) (c : char) (s : state) :
  wf s ->
  match body line i j c s with
  | Next s' =>
    exists v,
      classify line j c (context_of s) = Some (v, context_of s') /\
      match_delims (if v then [c] else []) (symbols s) = Some (symbols s')
  | Break s' => classify line j c (context_of s) = None /\ s' = s
  | Return _ =>
    exists ctx', classify line j c (context_of s) = Some (true, ctx') /\
                 forall w, match_delims (c :: w) (symbols s) = None
  | Raise _ => False
  end.
Proof.
  intros Hwf. rewrite body_eq, (wf_comment s Hwf). unfold classify.
  destruct ((c =? SLASH) && peek line (j + 1) SLASH); [now split|].
  assert (in_string s = true ->
          exists q, string_char s = [q] /\ context_of s = InString q) as Hin.
  { intros Hs. destruct (wf_string s Hwf Hs) as [q [Hq _]]. exists q.
    split; [assumption|]. unfold context_of. now rewrite Hs, Hq. }
  assert (in_string s = false -> context_of s = Normal) as Hout
    by (unfold context_of; now intros ->).
  destruct (in_string s) eqn:Hs.
  - (* inside a string *)
    destruct (Hin eq_refl) as [q [Hq Hctx]]. rewrite Hctx, Hq.
    simpl. rewrite pystr_eqb_single.
    destruct (is_quote c); [|exists false; now rewrite Hctx].
    destruct (c =? q); [|exists false; now rewrite Hctx].
    destruct ((0 <? j)%nat && peek line (j - 1) BACKSLASH);
      exists false; [now rewrite Hctx | now split].
  - (* outside *)
    rewrite (Hout eq_refl). cbn [negb].
    destruct (is_quote c); [exists false; now split|].
    destruct (is_opener c) eqn:Ho.
    + exists true.
      split; [now rewrite context_of_set_stack, (Hout eq_refl)|].
      cbn [match_delims]. rewrite Ho. now rewrite symbols_push.
    + destruct (is_closer c) eqn:Hcl.
      * destruct (snoc_cases _ (stack s)) as [E | [st [[[o l] k] E]]].
        { rewrite E. exists Normal. split; [reflexivity|].
          intros w. cbn [match_delims]. rewrite Ho, Hcl.
          now rewrite (proj2 (symbols_nil s) E). }
        rewrite E, pop_snoc, snoc_match. cbv beta iota.
        rewrite (symbols_snoc s st (o, l, k) E). cbn [match_delims fst].
        pose proof (wf_stack s Hwf) as Hst. rewrite E in Hst.
        apply Forall_snoc_inv in Hst. destruct Hst as [_ Hoo]. simpl in Hoo.
        destruct (getitem_opener o Hoo) as [e [He _]].
        rewrite He.
        destruct (c =? e) eqn:Hce; cbn [negb].
        { exists true.
          split; [now rewrite context_of_set_stack, (Hout eq_refl)|].
          cbn [match_delims]. now rewrite Ho, Hcl, He, Hce. }
        { exists Normal. split; [reflexivity|]. intros w.
          cbn [match_delims]. now rewrite ?Ho, ?Hcl, ?He, ?Hce. }
      * exists true. split; [now rewrite (Hout eq_refl)|].
        cbn [match_delims]. now rewrite Ho, Hcl.
Qed.

Lemma for_chars_match (line : pystr) (i : nat) (cs : pystr) :
  forall (j : nat) (s : state),
  wf s ->
  match for_chars line i j cs s with
  | Next s' | Break s' =>
    match_delims (fst (visible_chars line j cs (context_of s))) (symbols s) =
      Some (symbols s')
  | Return _ =>
    forall w,
      match_delims (fst (visible_chars line j cs (context_of s)) ++ w)
        (symbols s) = None
  | Raise _ => False
  end.
Proof.
  induction cs as [|c cs IH]; intros j s Hwf; simpl.
  - reflexivity.
  - pose proof (body_match line i j c s Hwf) as Hb.
    destruct (body line i j c s) as [s1 | s1 | out | e] eqn:Hbody.
    + destruct Hb as [v [Hcl Hm]]. rewrite Hcl.
      assert (wf s1) as Hwf1 by (apply (body_wf line i j c s); auto).
      specialize (IH (S j) s1 Hwf1).
      destruct (visible_chars line (S j) cs (context_of s1)) as [vs ctx].
      cbn [fst snd] in *.
      assert (forall w, match_delims ((if v then c :: vs else vs) ++ w)
                          (symbols s) =
                        match_delims (vs ++ w) (symbols s1)) as Hstep.
      { intros w.
        replace ((if v then c :: vs else vs) ++ w)
          with ((if v then [c] else []) ++ vs ++ w) by (now destruct v).
        now rewrite (match_delims_app (if v then [c] else [])), Hm. }
      destruct (for_chars line i (S j) cs s1) as [s2 | s2 | out | e].
      * rewrite <- (app_nil_r (if v then c :: vs else vs)), Hstep.
        now rewrite app_nil_r.
      * rewrite <- (app_nil_r (if v then c :: vs else vs)), Hstep.
        now rewrite app_nil_r.
      * intros w. now rewrite Hstep.
      * assumption.
    + destruct Hb as [Hcl ->]. now rewrite Hcl.
    + destruct Hb as [ctx' [Hcl Hm]]. rewrite Hcl.
      destruct (visible_chars line (S j) cs ctx') as [vs ctx]. cbn [fst].
      intros w. apply Hm.
    + assumption.
Qed.

Lemma for_lines_match (lines : list pystr) :
  forall (i : nat) (s : state),
  wf s ->
  match for_lines i lines s with
  | Next s' =>
    match_delims (fst (visible_lines lines (context_of s))) (symbols s) =
      Some (symbols s')
  | Return _ =>
    match_delims (fst (visible_lines lines (context_of s))) (symbols s) = None
  | _ => False
  end.
Proof.
  induction lines as [|raw lines IH]; intros i s Hwf; simpl.
  - reflexivity.
  - unfold for_line.
    pose proof (for_chars_match (rstrip raw) i (rstrip raw) 0 s Hwf) as Hm.
    pose proof (for_chars_visible (rstrip raw) i (rstrip raw) 0 s) as Hv.
    assert (forall s1,
              for_chars (rstrip raw) i 0 (rstrip raw) s = Next s1 \/
              for_chars (rstrip raw) i 0 (rstrip raw) s = Break s1 ->
              match_delims
                (fst (visible_chars (rstrip raw) 0 (rstrip raw) (context_of s)))
                (symbols s) = Some (symbols s1) ->
              match for_lines (S i) lines s1 with
              | Next s' =>
                match_delims
                  (fst (let (vs, ctx') :=
                          visible_chars (rstrip raw) 0 (rstrip raw)
                            (context_of s) in
                        let (ws, ctx'') := visible_lines lines ctx' in
                        (vs ++ ws, ctx''))) (symbols s) = Some (symbols s')
              | Return _ =>
                match_delims
                  (fst (let (vs, ctx') :=
                          visible_chars (rstrip raw) 0 (rstrip raw)
                            (context_of s) in
                        let (ws, ctx'') := visible_lines lines ctx' in
                        (vs ++ ws, ctx''))) (symbols s) = None
              | _ => False
              end) as Hnext.
    { intros s1 H1 Hm1.
      destruct (Hv s1 Hwf H1) as [Hctx _].
      assert (wf s1) as Hwf1
        by (apply (for_chars_wf (rstrip raw) i (rstrip raw) 0 s); auto).
      specialize (IH (S i) s1 Hwf1).
      destruct (visible_chars (rstrip raw) 0 (rstrip raw) (context_of s))
        as [vs ctx].
      cbn [fst snd] in Hctx, Hm1. subst ctx.
      destruct (visible_lines lines (context_of s1)) as [ws ctx'].
      cbn [fst snd] in *. rewrite match_delims_app, Hm1. exact IH. }
    destruct (for_chars (rstrip raw) i 0 (rstrip raw) s) as [s1 | s1 | out | e].
    + apply Hnext; auto.
    + apply Hnext; auto.
    + destruct (visible_chars (rstrip raw) 0 (rstrip raw) (context_of s))
        as [vs ctx].
      destruct (visible_lines lines ctx) as [ws ctx']. cbn [fst snd] in *.
      apply Hm.
    + assumption.
Qed.

(** ** Well nested words and the matching *)

Lemma nested_app (a b : pystr) : nested a -> nested b -> nested (a ++ b).
Proof.
  induction 1 as [|c w Ho Hc Hw IH|o e w1 w2 He H1 IH1 H2 IH2]; intros Hb.
  - assumption.
  - simpl. constructor; auto.
  - simpl. rewrite <- app_assoc. simpl. apply (nested_pair o e); auto.
Qed.

Lemma nested_match (w : pystr) :
  nested w -> forall st, match_delims w st = Some st.
Proof.
  induction 1 as [|c w Ho Hc Hw IH|o e w1 w2 He H1 IH1 H2 IH2]; intros st.
  - reflexivity.
  - cbn [match_delims]. now rewrite Ho, Hc.
  - destruct (getitem_cases o e He) as [Ho [_ [Heo Hec]]].
    cbn [match_delims]. rewrite Ho, match_delims_app, IH1.
    cbn [match_delims]. now rewrite Heo, Hec, He, N.eqb_refl.
Qed.

Lemma opens_app_nested (pre st w : pystr) :
  opens pre st -> nested w -> opens (pre ++ w) st.
Proof.
  induction 1 as [w0 H0 | pre st o w0 Hp IH Ho H0]; intros Hw.
  - constructor. now apply nested_app.
  - rewrite <- app_assoc. simpl. apply opens_push; auto. now apply nested_app.
Qed.

Lemma match_opens (w : pystr) :
  forall pre st,
    opens pre st -> match_delims w st = Some [] -> nested (pre ++ w).
Proof.
  induction w as [|c w IH]; intros pre st Hop Hm; cbn [match_delims] in Hm.
  - injection Hm as ->. rewrite app_nil_r. now inversion Hop.
  - replace (pre ++ c :: w) with ((pre ++ [c]) ++ w)
      by (now rewrite <- app_assoc).
    destruct (is_opener c) eqn:Ho.
    + apply (IH _ (c :: st)); [|assumption].
      constructor; auto. constructor.
    + destruct (is_closer c) eqn:Hc.
      * destruct st as [|o st]; [discriminate|].
        destruct (getitem delims o) as [e|] eqn:He; [|discriminate].
        destruct (N.eqb_spec c e) as [-> | _]; [|discriminate].
        apply (IH _ st); [|assumption].
        inversion Hop as [|pre0 st0 o0 w0 Hp0 Ho0 Hw0]; subst.
        rewrite <- app_assoc. simpl.
        apply opens_app_nested; [assumption|].
        apply (nested_pair o e w0 []); auto. constructor.
      * apply (IH _ st); [|assumption].
        apply opens_app_nested; [assumption|].
        constructor; auto. constructor.
Qed.

(** The words the matching takes from the empty stack back to the empty
    stack are the well nested ones. *)
Lemma match_nested (w : pystr) : match_delims w [] = Some [] <-> nested w.
Proof.
  split.
  - intros H. apply (match_opens w [] [] (opens_nil [] nested_nil) H).
  - intros H. now apply nested_match.
Qed.

(** ** What each outcome says of the visible text *)

(** The characters of the file outside string and comment context. *)
Lemma scan_match (lines : list pystr) :
  match for_lines 0 lines init with
  | Next s =>
    match_delims (fst (visible_lines lines Normal)) [] = Some (symbols s) /\
    snd (visible_lines lines Normal) = context_of s /\ wf s
  | Return _ =>
    match_delims (fst (visible_lines lines Normal)) [] = None /\
    early (for_lines 0 lines init)
  | _ => False
  end.
Proof.
  pose proof (for_lines_match lines 0 init wf_init) as Hm.
  pose proof (for_lines_visible lines 0 init) as Hv.
  pose proof (for_lines_wf lines 0 init) as Hw.
  destruct (for_lines_flow lines 0 init wf_init) as [[s Hs] | He].
  - rewrite Hs in *. split; [exact Hm|].
    split; [apply (Hv s wf_init eq_refl) | apply (Hw s wf_init eq_refl)].
  - destruct (for_lines 0 lines init) as [s | s | out | e];
      try contradiction; try (split; assumption).
    exfalso.
    destruct He as [[x [l [k H]]] | [x [l [k [e [ol [ok H]]]]]]];
      discriminate H.
Qed.

Lemma balanced_nested (lines : list pystr) :
  scan lines = printed Balanced <-> nested (fst (visible_lines lines Normal)).
Proof.
  rewrite <- match_nested. unfold scan.
  pose proof (scan_match lines) as Hm.
  destruct (for_lines 0 lines init) as [s | s | out | e] eqn:Hl;
    try contradiction.
  - destruct Hm as [Hm _]. rewrite Hm. simpl. split.
    + intros Hr. f_equal. apply symbols_nil.
      destruct (snoc_cases _ (stack s)) as [E | [st [[[c l] k] E]]];
        [assumption|].
      rewrite (report_snoc s st c l k E) in Hr. discriminate Hr.
    + intros [= Hs]. apply report_empty. now apply symbols_nil.
  - destruct Hm as [Hm He]. rewrite Hm. simpl. split; [|discriminate].
    intros Hr. rewrite Hr in He. exfalso.
    destruct He as [[x [l [k H]]] | [x [l [k [e [ol [ok H]]]]]]];
      discriminate H.
Qed.

(** X5. The call prints that all delimiters are balanced exactly when the
    characters of the file outside string literals and comments form a
    well nested word: every opening symbol closed by the symbol
    [delims] pairs it with, in the right order. *)
Theorem X5_balanced_iff_nested :
  forall lines : list pystr,
    scan lines = printed Balanced <->
    nested (fst (visible_lines lines Normal)).
Proof. exact balanced_nested. Qed.

Lemma X5_balanced_iff_nested_witness :
  nested (fst (visible_lines [str "f(a[1], {"; str " '(' // )"; str "})"]
                 Normal)).
Proof.
  apply (proj1 (X5_balanced_iff_nested
                  [str "f(a[1], {"; str " '(' // )"; str "})"])).
  reflexivity.
Defined.

Lemma closers_match (st : pystr) :
  Forall (fun o => is_opener o = true) st ->
  match_delims (closers_for st) st = Some [].
Proof.
  induction 1 as [|o st Ho Hst IH]; [reflexivity|].
  destruct (getitem_opener o Ho) as [e [He _]].
  destruct (getitem_cases o e He) as [_ [_ [Heo Hec]]].
  cbn [closers_for]. rewrite He. cbn [match_delims].
  now rewrite Heo, Hec, He, N.eqb_refl.
Qed.

Lemma symbols_openers (s : state) :
  wf s -> Forall (fun o => is_opener o = true) (symbols s).
Proof.
  intros Hwf. unfold symbols. apply Forall_rev. apply Forall_map.
  exact (wf_stack s Hwf).
Qed.

(** X6. The call stops at an unmatched or mismatched closer exactly when
    the characters of the file outside string literals and comments
    cannot be made well nested by adding characters after them. *)
Theorem X6_early_iff_hopeless :
  forall lines : list pystr,
    early (scan lines) <->
    forall w, ~ nested (fst (visible_lines lines Normal) ++ w).
Proof.
  intros lines. unfold scan.
  pose proof (scan_match lines) as Hm.
  destruct (for_lines 0 lines init) as [s | s | out | e] eqn:Hl;
    try contradiction.
  - destruct Hm as [Hm [_ Hwf]]. simpl. split.
    + intros He. exfalso. apply (report_not_early s He).
    + intros Hno. exfalso. apply (Hno (closers_for (symbols s))).
      apply match_nested. rewrite match_delims_app, Hm.
      apply closers_match. now apply symbols_openers.
  - destruct Hm as [Hm He]. simpl. split; [|intros _; exact He].
    intros _ w Hn. apply match_nested in Hn.
    rewrite match_delims_app, Hm in Hn. discriminate Hn.
Qed.

Lemma X6_early_iff_hopeless_witness :
  ~ nested (fst (visible_lines [str "{ x ]"; str "["] Normal) ++ str "}").
Proof.
  apply (proj1 (X6_early_iff_hopeless [str "{ x ]"; str "["])).
  right. exists RBRACKET, 1%nat, 5%nat, RBRACE, 1%nat, 1%nat. reflexivity.
Defined.

(** ** Files put end to end *)

Lemma visible_lines_app (a b : list pystr) :
  forall ctx,
    visible_lines (a ++ b) ctx =
    (fst (visible_lines a ctx) ++
       fst (visible_lines b (snd (visible_lines a ctx))),
     snd (visible_lines b (snd (visible_lines a ctx)))).
Proof.
  induction a as [|raw a IH]; intros ctx; simpl.
  - now destruct (visible_lines b ctx).
  - destruct (visible_chars (rstrip raw) 0 (rstrip raw) ctx) as [vs ctx1].
    rewrite IH.
    destruct (visible_lines a ctx1) as [ws ctx2]. simpl.
    now rewrite app_assoc.
Qed.

(** X7. On lists of lines, as [readlines] gives them: if the lines of
    one file are balanced and the scan does not end them inside a string
    literal, and the lines of a second file are balanced, then the first
    lines followed by the second lines, as further lines, are balanced.
    This is the file made of the two only when the first ends with a
    newline: were the last line of the first joined to the first line of
    the second, a slash ending one and a slash starting the other would
    start a comment, as the three closed cases show. *)
Theorem X7_balanced_lines_compose :
  (forall (lines1 lines2 : list pystr) (s1 : state),
     for_lines 0 lines1 init = Next s1 ->
     in_string s1 = false ->
     scan lines1 = printed Balanced ->
     scan lines2 = printed Balanced ->
     scan (lines1 ++ lines2) = printed Balanced) /\
  scan [str "/"] = printed Balanced /\
  scan [str "/(" ++ [NEWLINE]; str ")" ++ [NEWLINE]] = printed Balanced /\
  scan [str "//(" ++ [NEWLINE]; str ")" ++ [NEWLINE]] =
    printed (UnmatchedCloser RPAREN 2 1).
Proof.
  split; [|repeat split; reflexivity].
  intros lines1 lines2 s1 Hs1 Hout H1 H2.
  apply balanced_nested in H1. apply balanced_nested in H2.
  apply balanced_nested. rewrite visible_lines_app. simpl.
  pose proof (scan_match lines1) as Hm. rewrite Hs1 in Hm.
  destruct Hm as [_ [Hctx _]]. rewrite Hctx.
  unfold context_of. rewrite Hout. now apply nested_app.
Qed.

Lemma X7_balanced_lines_compose_witness :
  for_lines 0 [str "f(x)" ++ [NEWLINE]; str "'a' {}" ++ [NEWLINE]] init =
    Next {| stack := []; in_string := false; string_char := [SQUOTE];
            in_comment := false |} /\
  scan ([str "f(x)" ++ [NEWLINE]; str "'a' {}" ++ [NEWLINE]] ++
        [str "[ // (" ++ [NEWLINE]; str "]"]) = printed Balanced.
Proof.
  split; [reflexivity|].
  apply (proj1 X7_balanced_lines_compose
           [str "f(x)" ++ [NEWLINE]; str "'a' {}" ++ [NEWLINE]]
           [str "[ // (" ++ [NEWLINE]; str "]"]
           {| stack := []; in_string := false; string_char := [SQUOTE];
              in_comment := false |}
           eq_refl eq_refl eq_refl eq_refl).
Defined.

(** ** Closing what is left open *)

Lemma lstrip_head (c : char) (l : pystr) :
  isspace c = false -> lstrip (c :: l) = c :: l.
Proof. intros H. simpl. now rewrite H. Qed.

Lemma rstrip_no_space (l : pystr) :
  Forall (fun c => isspace c = false) l -> rstrip l = l.
Proof.
  intros H. unfold rstrip.
  destruct (rev l) as [|c r] eqn:E; [now rewrite <- (rev_involutive l), E|].
  rewrite lstrip_head.
  - now rewrite <- E, rev_involutive.
  - rewrite Forall_forall in H. apply H. apply in_rev. rewrite E. now left.
Qed.

Lemma closers_for_closers (st : pystr) :
  Forall (fun c => is_closer c = true) (closers_for st).
Proof.
  induction st as [|o st IH]; cbn [closers_for]; [constructor|].
  destruct (getitem delims o) as [e|] eqn:He; [|assumption].
  constructor; [|assumption]. now destruct (getitem_cases o e He) as [_ [_ [_ H]]].
Qed.

Lemma closer_no_space (c : char) : is_closer c = true -> isspace c = false.
Proof.
  intros H. apply is_closer_cases in H. destruct H as [-> | [-> | ->]]; reflexivity.
Qed.

(** Outside a string, a run of closing symbols is all visible. *)
Lemma visible_closers (line : pystr) (cs : pystr) :
  Forall (fun c => is_closer c = true) cs ->
  forall j, visible_chars line j cs Normal = (cs, Normal).
Proof.
  induction 1 as [|c cs Hc Hcs IH]; intros j; simpl; [reflexivity|].
  unfold classify. destruct (closer_tests c Hc) as [-> [-> _]]. simpl.
  now rewrite IH.
Qed.

(** X8. When the loops end outside a string literal with openers left on
    the stack, one more line made of the closing symbols [delims] gives
    for the symbols of the stack, from the top down, makes the file
    balanced: the stack holds exactly what is left to close. *)
Theorem X8_closing_the_stack :
  forall (lines : list pystr) (s : state),
    for_lines 0 lines init = Next s ->
    in_string s = false ->
    scan (lines ++ [closers_for (symbols s)]) = printed Balanced.
Proof.
  intros lines s Hs Hout.
  pose proof (scan_match lines) as Hm. rewrite Hs in Hm.
  destruct Hm as [Hm [Hctx Hwf]].
  apply balanced_nested. rewrite visible_lines_app, Hctx.
  unfold context_of at 1. rewrite Hout. cbn [visible_lines fst snd].
  rewrite rstrip_no_space.
  - rewrite (visible_closers _ _ (closers_for_closers (symbols s))).
    cbn [fst]. rewrite app_nil_r. apply match_nested.
    rewrite match_delims_app, Hm. apply closers_match.
    now apply symbols_openers.
  - eapply Forall_impl; [|apply closers_for_closers].
    intros c. apply closer_no_space.
Qed.

Lemma X8_closing_the_stack_witness :
  closers_for
    (symbols {| stack := [(LBRACE, 1, 1); (LPAREN, 1, 4); (LBRACKET, 2, 2)]%nat;
                in_string := false; string_char := [DQUOTE];
                in_comment := false |}) = str "])}" /\
  scan ([str "{ f("; [32; LBRACKET; DQUOTE; RPAREN; DQUOTE]] ++
        [closers_for
           (symbols
              {| stack := [(LBRACE, 1, 1); (LPAREN, 1, 4); (LBRACKET, 2, 2)]%nat;
                 in_string := false; string_char := [DQUOTE];
                 in_comment := false |})]) = printed Balanced.
Proof.
  split; [reflexivity|].
  apply (X8_closing_the_stack
           [str "{ f("; [32; LBRACKET; DQUOTE; RPAREN; DQUOTE]] _
           eq_refl eq_refl).
Defined.

(** ** Files without delimiters *)

Lemma visible_chars_In (line : pystr) (cs : pystr) :
  forall j ctx c, In c (fst (visible_chars line j cs ctx)) -> In c cs.
Proof.
  induction cs as [|x cs IH]; intros j ctx c; simpl; [easy|].
  destruct (classify line j x ctx) as [[v ctx']|]; [|easy].
  specialize (IH (S j) ctx' c).
  destruct (visible_chars line (S j) cs ctx') as [vs ctx'']. simpl in *.
  destruct v; simpl; intuition.
Qed.

Lemma visible_lines_In (lines : list pystr) :
  forall ctx c,
    In c (fst (visible_lines lines ctx)) ->
    exists raw, In raw lines /\ In c raw.
Proof.
  induction lines as [|raw lines IH]; intros ctx c; simpl; [easy|].
  pose proof (visible_chars_In (rstrip raw) (rstrip raw) 0 ctx c) as Hc.
  destruct (visible_chars (rstrip raw) 0 (rstrip raw) ctx) as [vs ctx1].
  specialize (IH ctx1 c).
  destruct (visible_lines lines ctx1) as [ws ctx2]. simpl in *.
  intros Hin. apply in_app_or in Hin. destruct Hin as [Hin | Hin].
  - exists raw. split; [now left|]. apply rstrip_In. now apply Hc.
  - destruct (IH Hin) as [r [Hr Hcr]]. exists r. split; [now right | assumption].
Qed.

Lemma plain_nested (w : pystr) :
  Forall (fun c => is_opener c = false /\ is_closer c = false) w -> nested w.
Proof.
  induction 1 as [|c w [Ho Hc] Hw IH]; constructor; assumption.
Qed.

(** X9. A file with no opening or closing symbol outside its string
    literals and comments is balanced; in particular a file none of
    whose lines holds any of the six delimiter characters is balanced,
    whatever quotes, slashes and backslashes it holds. *)
Theorem X9_no_delimiter_is_balanced :
  (forall lines : list pystr,
     Forall (fun c => is_opener c = false /\ is_closer c = false)
       (fst (visible_lines lines Normal)) ->
     scan lines = printed Balanced) /\
  (forall lines : list pystr,
     Forall (Forall (fun c => is_opener c = false /\ is_closer c = false))
       lines ->
     scan lines = printed Balanced).
Proof.
  assert (forall lines : list pystr,
     Forall (fun c => is_opener c = false /\ is_closer c = false)
       (fst (visible_lines lines Normal)) ->
     scan lines = printed Balanced) as Hvis.
  { intros lines H. apply balanced_nested. now apply plain_nested. }
  split; [exact Hvis|].
  intros lines H. apply Hvis. apply Forall_forall. intros c Hc.
  destruct (visible_lines_In lines Normal c Hc) as [raw [Hraw Hcr]].
  rewrite Forall_forall in H. specialize (H raw Hraw).
  rewrite Forall_forall in H. now apply H.
Qed.

Lemma X9_no_delimiter_is_balanced_witness :
  scan [DQUOTE :: str "a ( 'b // ]"; str "{ " ++ [DQUOTE] ++ str " x // )"] =
    printed Balanced.
Proof.
  apply (proj1 X9_no_delimiter_is_balanced
           [DQUOTE :: str "a ( 'b // ]"; str "{ " ++ [DQUOTE] ++ str " x // )"]).
  repeat constructor.
Defined.

(** ** Exceptions *)







(** ** The variables of the scan *)

Lemma reaches_context (before : list pystr) (pre : pystr) (c : char)
    (s : state) :
  reaches before pre c s -> context_of s = context_at before pre c.
Proof.
  intros [s0 [H0 H1]]. unfold context_at.
  destruct (for_lines_visible before 0 init s0 wf_init H0) as [Hctx _].
  change (context_of init) with Normal in Hctx. rewrite Hctx.
  destruct (for_chars_visible (pre ++ [c]) (length before) pre 0 s0 s)
    as [Hctx' _]; auto.
  apply (for_lines_wf before 0 init); auto using wf_init.
Qed.

(** What a context says of the variables of a state. *)
Lemma context_variables (s : state) (ctx : context) :
  wf s -> context_of s = ctx ->
  match ctx with
  | Normal => in_string s = false
  | InString q =>
    in_string s = true /\ string_char s = [q] /\ is_quote q = true
  end.
Proof.
  intros Hwf <-. unfold context_of.
  destruct (in_string s) eqn:Hs; [|reflexivity].
  destruct (wf_string s Hwf Hs) as [q [Hq Hquote]]. rewrite Hq.
  now repeat split.
Qed.

(** X11. In every state the scan goes through, before a character or at
    the end of the lines: [in_comment] is false (the variable is never
    set, so the first test of the loop body never skips a character);
    every entry of the stack holds an opening symbol; [in_string] is
    true exactly when the reading of the specification has the place
    inside a string, and [string_char] is then the quote that opened
    that string.  Where a string starts, the state records the very
    quote the scan is at; inside a string no step changes
    [string_char]. *)
Theorem X11_state_invariant :
  (forall (before : list pystr) (pre : pystr) (c : char) (s : state),
     reaches before pre c s ->
     in_comment s = false /\
     Forall (fun e : entry => is_opener (fst (fst e)) = true) (stack s) /\
     match context_at before pre c with
     | Normal => in_string s = false
     | InString q =>
       in_string s = true /\ string_char s = [q] /\ is_quote q = true
     end) /\
  (forall (lines : list pystr) (s : state),
     for_lines 0 lines init = Next s ->
     in_comment s = false /\
     Forall (fun e : entry => is_opener (fst (fst e)) = true) (stack s) /\
     match snd (visible_lines lines Normal) with
     | Normal => in_string s = false
     | InString q =>
       in_string s = true /\ string_char s = [q] /\ is_quote q = true
     end) /\
  (forall (before : list pystr) (pre : pystr) (c : char) (s : state),
     reaches before pre c s ->
     in_string s = false -> is_quote c = true ->
     forall suf : pystr,
       exists s',
         body (pre ++ c :: suf) (length before) (length pre) c s = Next s' /\
         in_string s' = true /\ string_char s' = [c] /\
         stack s' = stack s) /\
  (forall (before : list pystr) (pre : pystr) (c : char) (s s' : state),
     reaches before pre c s ->
     in_string s = true ->
     forall suf : pystr,
       body (pre ++ c :: suf) (length before) (length pre) c s = Next s' ->
       string_char s' = string_char s) /\
  for_lines 0 [[DQUOTE; SQUOTE; LPAREN]] init =
    Next {| stack := []; in_string := true; string_char := [DQUOTE];
            in_comment := false |} /\
  for_lines 0 [[SQUOTE; DQUOTE; LPAREN]] init =
    Next {| stack := []; in_string := true; string_char := [SQUOTE];
            in_comment := false |}.
Proof.
  split; [|split; [|split; [|split; [|split; reflexivity]]]].
  - intros before pre c s Hr.
    pose proof (reaches_wf _ _ _ _ Hr) as Hwf.
    split; [apply (wf_comment s Hwf)|]. split; [apply (wf_stack s Hwf)|].
    apply (context_variables s _ Hwf). now apply reaches_context.
  - intros lines s Hs.
    assert (wf s) as Hwf
      by (apply (for_lines_wf lines 0 init); auto using wf_init).
    split; [apply (wf_comment s Hwf)|]. split; [apply (wf_stack s Hwf)|].
    apply (context_variables s _ Hwf).
    destruct (for_lines_visible lines 0 init s wf_init Hs) as [Hctx _].
    now symmetry.
  - intros before pre c s Hr Hs Hq suf.
    pose proof (reaches_wf _ _ _ _ Hr) as Hwf.
    exists (enter_string s c).
    rewrite body_eq, (wf_comment s Hwf), (quote_tests c Hq), Hq, Hs.
    now repeat split.
  - intros before pre c s s' Hr Hs suf Hb.
    pose proof (reaches_wf _ _ _ _ Hr) as Hwf.
    destruct (wf_string s Hwf Hs) as [q [Hsc _]].
    rewrite (body_inside _ _ _ c q s Hwf Hs Hsc) in Hb.
    destruct ((c =? SLASH) &&
              peek (pre ++ c :: suf) (length pre + 1) SLASH); [discriminate|].
    destruct ((c =? q) &&
              negb ((0 <? length pre)%nat &&
                    peek (pre ++ c :: suf) (length pre - 1) BACKSLASH));
      now injection Hb as <-.
Qed.

Lemma X11_state_invariant_witness :
  reaches [[LBRACE; DQUOTE; SQUOTE]] (str "a'b") RPAREN
    {| stack := [(LBRACE, 1, 1)]%nat; in_string := true;
       string_char := [DQUOTE]; in_comment := false |} /\
  context_at [[LBRACE; DQUOTE; SQUOTE]] (str "a'b") RPAREN = InString DQUOTE /\
  string_char {| stack := [(LBRACE, 1, 1)]%nat; in_string := true;
                 string_char := [DQUOTE]; in_comment := false |} = [DQUOTE].
Proof.
  assert (reaches [[LBRACE; DQUOTE; SQUOTE]] (str "a'b") RPAREN
            {| stack := [(LBRACE, 1, 1)]%nat; in_string := true;
               string_char := [DQUOTE]; in_comment := false |}) as Hr
    by (eexists; split; reflexivity).
  split; [exact Hr|]. split; [reflexivity|].
  exact (proj1 (proj2 (proj2 (proj2 (proj1 X11_state_invariant _ _ _ _ Hr))))).
Defined.
